(** * Shallow embedding of the sentence store of [trainer_interface.h]

    The trainer keeps its corpus in a LevelDB database.  Each sentence
    [(text, count)] is stored under the key [std::to_string(index)] with
    the value [text + '\0' + std::to_string(count)].  This file embeds the
    store methods of [TrainerInterface] ([addSentenceToDB],
    [getSentenceFromDB], [updateSentenceInDB], [removeSentenceFromDB],
    [loadSentencesFromDB], [getDBSize]) and the [Sorted] template. *)

From Stdlib Require Import String Ascii List ZArith NArith Lia.
From Stdlib Require Import Sorting.Permutation Sorting.Sorted.
From Stdlib Require Import DecimalNat.
Import ListNotations.
Open Scope bool_scope.
Open Scope string_scope.

(** ** C++ standard library pieces used by the store *)
Module Cpp.

(** The byte ['\0'] used as separator between text and count. *)
Definition NUL : ascii := Ascii.zero.

(** Exceptions thrown by the store methods and by [std::stoll]. *)
Inductive exception :=
| runtime_error (what : string)
| out_of_range (what : string)
| invalid_argument (what : string).

(** Outcome of a C++ call: it returns normally or raises an exception. *)
Inductive outcome (A : Type) :=
| Normal (a : A)
| Raised (e : exception).
Arguments Normal {A} a.
Arguments Raised {A} e.

(** Decimal digits, most significant first, as [std::to_string] prints them. *)
Fixpoint uint_to_string (d : Decimal.uint) : string :=
  match d with
  | Decimal.Nil => EmptyString
  | Decimal.D0 d => String "0" (uint_to_string d)
  | Decimal.D1 d => String "1" (uint_to_string d)
  | Decimal.D2 d => String "2" (uint_to_string d)
  | Decimal.D3 d => String "3" (uint_to_string d)
  | Decimal.D4 d => String "4" (uint_to_string d)
  | Decimal.D5 d => String "5" (uint_to_string d)
  | Decimal.D6 d => String "6" (uint_to_string d)
  | Decimal.D7 d => String "7" (uint_to_string d)
  | Decimal.D8 d => String "8" (uint_to_string d)
  | Decimal.D9 d => String "9" (uint_to_string d)
  end.

Definition to_string_nat (n : nat) : string := uint_to_string (Nat.to_uint n).

(** [std::to_string(size_t)]; a [size_t] is an [N] below [2^64]. *)
Definition to_string_size (n : N) : string := to_string_nat (N.to_nat n).

(** [std::to_string(int64_t)]: a minus sign for negative values. *)
Definition to_string_int64 (c : Z) : string :=
  if (c <? 0)%Z then String "-" (to_string_nat (Z.to_nat (- c)))
  else to_string_nat (Z.to_nat c).

Definition SIZE_MAX_PLUS_1 : N := (2 ^ 64)%N.

(** [++n] on a [size_t]. *)
Definition size_t_incr (n : N) : N := N.modulo (n + 1) SIZE_MAX_PLUS_1.

Definition LLONG_MIN : Z := (- 2 ^ 63)%Z.
Definition LLONG_MAX : Z := (2 ^ 63 - 1)%Z.
Definition in_int64 (c : Z) : Prop := (LLONG_MIN <= c <= LLONG_MAX)%Z.

(** [isspace] in the C locale. *)
Definition is_space (c : ascii) : bool :=
  match nat_of_ascii c with
  | 32 | 9 | 10 | 11 | 12 | 13 => true
  | _ => false
  end.

Definition digit_value (c : ascii) : option Z :=
  let n := nat_of_ascii c in
  if (48 <=? n)%nat && (n <=? 57)%nat then Some (Z.of_nat (n - 48)) else None.

(** [s.c_str()] as read by a C function: the bytes before the first NUL. *)
Fixpoint c_str (s : string) : string :=
  match s with
  | EmptyString => EmptyString
  | String c r => if Ascii.eqb c NUL then EmptyString else String c (c_str r)
  end.

Fixpoint skip_space (s : string) : string :=
  match s with
  | String c r => if is_space c then skip_space r else s
  | EmptyString => s
  end.

(** The digit loop of [strtoll] in base 10: the value read and the number
    of digits consumed. *)
Fixpoint read_digits (s : string) (acc : Z) (n : nat) : Z * nat :=
  match s with
  | String c r =>
      match digit_value c with
      | Some d => read_digits r (acc * 10 + d) (S n)
      | None => (acc, n)
      end
  | EmptyString => (acc, n)
  end.

(** The optional sign of [strtoll]: whether it was ['-'], and the rest. *)
Definition read_sign (s : string) : bool * string :=
  match s with
  | String c r =>
      if Ascii.eqb c "-" then (true, r)
      else if Ascii.eqb c "+" then (false, r) else (false, s)
  | EmptyString => (false, s)
  end.

(** [std::stoll(str)], i.e. [strtoll(str.c_str(), &end, 10)]: leading white
    space, an optional sign, then at least one digit; no digit raises
    [std::invalid_argument], a value outside [int64_t] raises
    [std::out_of_range]. *)
Definition stoll (str : string) : outcome Z :=
  let '(neg, s2) := read_sign (skip_space (c_str str)) in
  let '(m, nd) := read_digits s2 0 0 in
  if Nat.eqb nd 0 then Raised (invalid_argument "stoll")
  else
    let v := if neg then (- m)%Z else m in
    if (LLONG_MIN <=? v)%Z && (v <=? LLONG_MAX)%Z then Normal v
    else Raised (out_of_range "stoll").

(** [s.find(c)]: the position of the first [c], [npos] as [None]. *)
Fixpoint find (c : ascii) (s : string) : option nat :=
  match s with
  | EmptyString => None
  | String c' r =>
      if Ascii.eqb c' c then Some 0
      else match find c r with Some p => Some (S p) | None => None end
  end.

(** [s.substr(0, n)]. *)
Fixpoint substr_prefix (n : nat) (s : string) : string :=
  match n, s with
  | 0, _ => EmptyString
  | S n', String c r => String c (substr_prefix n' r)
  | S _, EmptyString => EmptyString
  end.

(** [s.substr(n)]. *)
Fixpoint substr_from (n : nat) (s : string) : string :=
  match n, s with
  | 0, _ => s
  | S n', String _ r => substr_from n' r
  | S _, EmptyString => EmptyString
  end.

(** The string has no NUL byte. *)
Definition no_nul (s : string) : Prop := find NUL s = None.

End Cpp.
Import Cpp.

(** ** The LevelDB handle

    A database is a map from byte-string keys to byte-string values, kept
    as an association list in the order of LevelDB's default bytewise
    comparator, which is the order its iterators visit.  Whether the medium
    accepts an operation is not decided by the code: each call receives a
    [fault], [None] when the medium works and [Some msg] when it reports an
    I/O error. *)
Module LevelDB.

Definition store := list (string * string).

Inductive status := OK | NotFound (msg : string) | IOError (msg : string).

Definition ok (s : status) : bool := match s with OK => true | _ => false end.

(** [Status::ToString()]. *)
Definition ToString (s : status) : string :=
  match s with
  | OK => "OK"
  | NotFound m => "NotFound: " ++ m
  | IOError m => "IO error: " ++ m
  end.

Definition fault := option string.

Fixpoint insert (k v : string) (d : store) : store :=
  match d with
  | [] => [(k, v)]
  | (k', v') :: r =>
      match String.compare k k' with
      | Eq => (k, v) :: r
      | Lt => (k, v) :: (k', v') :: r
      | Gt => (k', v') :: insert k v r
      end
  end.

Fixpoint remove (k : string) (d : store) : store :=
  match d with
  | [] => []
  | (k', v') :: r =>
      match String.compare k k' with
      | Eq => r
      | _ => (k', v') :: remove k r
      end
  end.

Fixpoint lookup (k : string) (d : store) : option string :=
  match d with
  | [] => None
  | (k', v') :: r =>
      match String.compare k k' with
      | Eq => Some v'
      | _ => lookup k r
      end
  end.

(** [DB::Put]. *)
Definition Put (f : fault) (d : store) (k v : string) : status * store :=
  match f with
  | Some m => (IOError m, d)
  | None => (OK, insert k v d)
  end.

(** [DB::Delete]: deleting an absent key succeeds. *)
Definition Delete (f : fault) (d : store) (k : string) : status * store :=
  match f with
  | Some m => (IOError m, d)
  | None => (OK, remove k d)
  end.

(** [DB::Get]: the status and the value written to [*value]. *)
Definition Get (f : fault) (d : store) (k : string) : status * string :=
  match f with
  | Some m => (IOError m, EmptyString)
  | None =>
      match lookup k d with
      | Some v => (OK, v)
      | None => (NotFound EmptyString, EmptyString)
      end
  end.

(** A full iteration from [SeekToFirst]: the entries visited while
    [Valid()] holds and the final [status()].  An iterator fault
    [Some (n, msg)] stops the iteration after [n] entries. *)
Definition Iterate (f : option (nat * string)) (d : store)
  : list (string * string) * status :=
  match f with
  | None => (d, OK)
  | Some (n, m) => (firstn n d, IOError m)
  end.

End LevelDB.

(** ** [TrainerInterface] and its store methods *)
Module Trainer.
Import LevelDB.

(** [using Sentence = std::pair<std::string, int64_t>]. *)
Definition Sentence := (string * Z)%type.

(** The members the store methods use, with the lines written to
    [std::cout]. *)
Record state := mk_state {
  db_ : store;
  current_index_ : N;
  cout : list string
}.

(** A method call: the exception of a [throw] leaves the object as it was
    at the throw. *)
Definition M (A : Type) := state -> outcome A * state.

Definition set_db (t : state) (d : store) : state :=
  mk_state d (current_index_ t) (cout t).

(** [sentence.first + '\0' + std::to_string(sentence.second)]. *)
Definition encode (s : Sentence) : string :=
  fst s ++ String NUL (to_string_int64 (snd s)).

(** The decoding shared by [loadSentencesFromDB] and [getSentenceFromDB]. *)
Definition decode (value : string) : outcome Sentence :=
  match find NUL value with
  | None => Raised (runtime_error "Corrupted value in LevelDB")
  | Some pos =>
      let sentence := substr_prefix pos value in
      match stoll (substr_from (pos + 1) value) with
      | Normal count => Normal (sentence, count)
      | Raised e => Raised e
      end
  end.

(** The constructor: opens ["sentences_db"] with [create_if_missing], whose
    existing contents are [d0]; [current_index_] starts at 0. *)
Definition TrainerInterface (open : status) (d0 : store) : outcome state :=
  if ok open then Normal (mk_state d0 0%N [])
  else Raised (runtime_error ("Failed to open LevelDB: " ++ ToString open)).

Definition addSentenceToDB (f : fault) (sentence : Sentence) : M unit :=
  fun t =>
    let key := to_string_size (current_index_ t) in
    let value := encode sentence in
    let '(s, d) := Put f (db_ t) key value in
    if ok s then
      (Normal tt, mk_state d (size_t_incr (current_index_ t)) (cout t))
    else
      (Raised (runtime_error ("Failed to write to LevelDB: " ++ ToString s)),
       set_db t d).

Definition removeSentenceFromDB (f : fault) (index : N) : M unit :=
  fun t =>
    let key := to_string_size index in
    let '(s, d) := Delete f (db_ t) key in
    if ok s then (Normal tt, set_db t d)
    else
      (Raised (runtime_error ("Failed to delete from LevelDB: " ++ ToString s)),
       set_db t d).

(** One line of [std::cout << "Sentence: " << ... << std::endl]. *)
Definition print_line (s : Sentence) : string :=
  "Sentence: " ++ fst s ++ ", Count: " ++ to_string_int64 (snd s)
  ++ String (ascii_of_nat 10) EmptyString.

(** The loop body of [loadSentencesFromDB] over the visited entries. *)
Fixpoint load_entries (es : list (string * string)) (out : list string)
  : outcome unit * list string :=
  match es with
  | [] => (Normal tt, out)
  | (_, value) :: r =>
      match decode value with
      | Raised e => (Raised e, out)
      | Normal s => load_entries r (out ++ [print_line s])
      end
  end.

Definition loadSentencesFromDB (f : option (nat * string)) : M unit :=
  fun t =>
    let '(es, st) := Iterate f (db_ t) in
    match load_entries es (cout t) with
    | (Raised e, out) => (Raised e, mk_state (db_ t) (current_index_ t) out)
    | (Normal _, out) =>
        let t' := mk_state (db_ t) (current_index_ t) out in
        if ok st then (Normal tt, t')
        else (Raised (runtime_error ("Failed to iterate LevelDB: " ++ ToString st)), t')
    end.

Definition getSentenceFromDB (f : fault) (index : N) : M Sentence :=
  fun t =>
    let key := to_string_size index in
    let '(s, value) := Get f (db_ t) key in
    if negb (ok s) then
      (Raised (out_of_range
         ("Index out of range or failed to read from LevelDB: " ++ ToString s)), t)
    else (decode value, t).

Definition updateSentenceInDB (f : fault) (index : N) (newSentence : Sentence)
  : M unit :=
  fun t =>
    let key := to_string_size index in
    let value := encode newSentence in
    let '(s, d) := Put f (db_ t) key value in
    if ok s then (Normal tt, set_db t d)
    else
      (Raised (runtime_error ("Failed to update LevelDB: " ++ ToString s)),
       set_db t d).

Definition getDBSize (f : option (nat * string)) : M N :=
  fun t =>
    let '(es, st) := Iterate f (db_ t) in
    let count := fold_left (fun c _ => size_t_incr c) es 0%N in
    if ok st then (Normal count, t)
    else (Raised (runtime_error ("Failed to iterate LevelDB: " ++ ToString st)), t).

End Trainer.

(** ** Sequences of store calls

    A caller issues store calls one after another; a call that throws
    leaves the object as it was at the throw and the caller may go on. *)
Module Ops.
Import LevelDB Trainer.

Inductive store_op :=
| OpAdd (f : fault) (s : Sentence)
| OpGet (f : fault) (i : N)
| OpUpdate (f : fault) (i : N) (s : Sentence)
| OpRemove (f : fault) (i : N)
| OpLoad (f : option (nat * string))
| OpSize (f : option (nat * string)).

Definition step (o : store_op) (t : state) : state :=
  match o with
  | OpAdd f s => snd (addSentenceToDB f s t)
  | OpGet f i => snd (getSentenceFromDB f i t)
  | OpUpdate f i s => snd (updateSentenceInDB f i s t)
  | OpRemove f i => snd (removeSentenceFromDB f i t)
  | OpLoad f => snd (loadSentencesFromDB f t)
  | OpSize f => snd (getDBSize f t)
  end.

Fixpoint run (ops : list store_op) (t : state) : state :=
  match ops with
  | [] => t
  | o :: r => run r (step o t)
  end.

(** The key a call writes with an accepted [Put], if any. *)
Definition written_key (o : store_op) (t : state) : option string :=
  match o with
  | OpAdd None _ => Some (to_string_size (current_index_ t))
  | OpUpdate None i _ => Some (to_string_size i)
  | _ => None
  end.

Fixpoint written_keys (ops : list store_op) (t : state) : list string :=
  match ops with
  | [] => []
  | o :: r =>
      match written_key o t with
      | Some k => k :: written_keys r (step o t)
      | None => written_keys r (step o t)
      end
  end.

(** The sentence a call hands to the store, if any. *)
Definition sentence_of (o : store_op) : option Sentence :=
  match o with
  | OpAdd _ s | OpUpdate _ _ s => Some s
  | _ => None
  end.

End Ops.

(** ** The [Sorted] template

    [std::sort] with the comparator
    [p1.second > p2.second || (p1.second == p2.second && p1.first < p2.first)].
    The embedding sorts by insertion with the same comparator; when [>] on
    values and [<] on keys are strict total orders the comparator is a
    strict total order on distinct pairs, so every sorting algorithm that
    honours it returns this same list. *)
Module SortedPairs.
Section Sorted.
Context {K V : Type}.
(** [operator<] on keys, [operator>] and [operator==] on values. *)
Variable key_lt : K -> K -> bool.
Variable value_gt : V -> V -> bool.
Variable value_eq : V -> V -> bool.

Definition comp (p1 p2 : K * V) : bool :=
  value_gt (snd p1) (snd p2)
  || (value_eq (snd p1) (snd p2) && key_lt (fst p1) (fst p2)).

Fixpoint insert_by (x : K * V) (l : list (K * V)) : list (K * V) :=
  match l with
  | [] => [x]
  | y :: r => if comp y x then y :: insert_by x r else x :: l
  end.

(** [std::sort(v.begin(), v.end(), comp)]. *)
Definition sort (v : list (K * V)) : list (K * V) := fold_right insert_by [] v.

(** [Sorted(const std::vector<std::pair<K, V>> &m)]: sorts a copy. *)
Definition Sorted (m : list (K * V)) : list (K * V) := let v := m in sort v.

(** [Sorted(const absl::flat_hash_map<K, V> &m)]: the map is given by its
    entries in its (unspecified) iteration order, copied into a vector
    [v(m.begin(), m.end())] and sorted. *)
Definition Sorted_map (m : list (K * V)) : list (K * V) :=
  let v := m in Sorted v.

End Sorted.
End SortedPairs.

(** ** Facts about the encoding *)
Module EncodingFacts.
Import Trainer.

Lemma ascii_compare_refl (a : ascii) : Ascii.compare a a = Eq.
Proof. unfold Ascii.compare. apply N.compare_refl. Qed.

Lemma string_compare_refl (s : string) : String.compare s s = Eq.
Proof.
  induction s as [|a s IH]; simpl; [reflexivity|].
  rewrite ascii_compare_refl. exact IH.
Qed.

Lemma string_compare_eq (s1 s2 : string) : String.compare s1 s2 = Eq <-> s1 = s2.
Proof.
  split; [apply String.compare_eq_iff|intros ->; apply string_compare_refl].
Qed.

Lemma uint_to_string_inj (d1 d2 : Decimal.uint) :
  uint_to_string d1 = uint_to_string d2 -> d1 = d2.
Proof.
  revert d2; induction d1; intros d2 H; destruct d2; simpl in H;
    try discriminate; try reflexivity;
    injection H; intro; f_equal; auto.
Qed.

Lemma to_string_size_inj (n1 n2 : N) :
  to_string_size n1 = to_string_size n2 -> n1 = n2.
Proof.
  unfold to_string_size, to_string_nat. intro H.
  apply uint_to_string_inj, DecimalNat.Unsigned.to_uint_inj in H.
  now apply N2Nat.inj.
Qed.

Lemma to_uint_not_nil (n : nat) : Nat.to_uint n <> Decimal.Nil.
Proof.
  intro H. pose proof (DecimalNat.Unsigned.of_to n) as E.
  rewrite H in E. simpl in E. subst n. discriminate H.
Qed.

Lemma c_str_uint (d : Decimal.uint) : c_str (uint_to_string d) = uint_to_string d.
Proof. induction d; simpl; rewrite ?IHd; reflexivity. Qed.

Lemma skip_space_uint (d : Decimal.uint) :
  skip_space (uint_to_string d) = uint_to_string d.
Proof. destruct d; reflexivity. Qed.

Lemma read_sign_uint (d : Decimal.uint) :
  d <> Decimal.Nil -> read_sign (uint_to_string d) = (false, uint_to_string d).
Proof. destruct d; [congruence| ..]; reflexivity. Qed.

Lemma read_digits_uint (d : Decimal.uint) (a n : nat) :
  read_digits (uint_to_string d) (Z.of_nat a) n
  = (Z.of_nat (Nat.of_uint_acc d a), (n + String.length (uint_to_string d))%nat).
Proof.
  revert a n; induction d; intros a n;
    [cbn; f_equal; lia|..];
    cbn [uint_to_string read_digits Nat.of_uint_acc String.length];
    rewrite Nat.tail_mul_spec;
    match goal with
    | |- match digit_value ?c with _ => _ end = (Z.of_nat (Nat.of_uint_acc _ ?m), _) =>
        let v := eval vm_compute in (digit_value c) in
        change (digit_value c) with v; cbv iota beta;
        replace (Z.of_nat a * 10 + _)%Z with (Z.of_nat m) by lia
    end;
    rewrite IHd; f_equal; lia.
Qed.

Lemma read_digits_to_uint (n : nat) :
  exists k, read_digits (to_string_nat n) 0 0 = (Z.of_nat n, S k).
Proof.
  unfold to_string_nat.
  pose proof (read_digits_uint (Nat.to_uint n) 0 0) as R.
  change (Z.of_nat 0) with 0%Z in R. rewrite R.
  change (Nat.of_uint_acc (Nat.to_uint n) 0) with (Nat.of_uint (Nat.to_uint n)).
  rewrite DecimalNat.Unsigned.of_to.
  pose proof (to_uint_not_nil n) as Hn.
  destruct (Nat.to_uint n); [congruence|..]; eexists; reflexivity.
Qed.

Lemma read_sign_to_string_nat (n : nat) :
  read_sign (skip_space (c_str (to_string_nat n))) = (false, to_string_nat n).
Proof.
  unfold to_string_nat. rewrite c_str_uint, skip_space_uint.
  apply read_sign_uint, to_uint_not_nil.
Qed.

(** [std::stoll] reads back what [std::to_string] printed. *)
Lemma stoll_to_string_int64 (c : Z) :
  in_int64 c -> stoll (to_string_int64 c) = Normal c.
Proof.
  unfold in_int64, LLONG_MIN, LLONG_MAX, to_string_int64. intro Hr.
  destruct (c <? 0)%Z eqn:Hc.
  - apply Z.ltb_lt in Hc. unfold stoll.
    change (c_str (String "-" (to_string_nat (Z.to_nat (- c)))))
      with (String "-" (c_str (to_string_nat (Z.to_nat (- c))))).
    unfold to_string_nat at 1. rewrite c_str_uint. fold (to_string_nat (Z.to_nat (- c))).
    change (read_sign (skip_space (String "-" (to_string_nat (Z.to_nat (- c))))))
      with (true, to_string_nat (Z.to_nat (- c))).
    cbv zeta.
    destruct (read_digits_to_uint (Z.to_nat (- c))) as [k ->].
    rewrite Z2Nat.id by lia. simpl Nat.eqb. cbv iota.
    replace (- - c)%Z with c by lia.
    unfold LLONG_MIN, LLONG_MAX.
    replace ((- 2 ^ 63 <=? c)%Z && (c <=? 2 ^ 63 - 1)%Z) with true; [reflexivity|].
    symmetry. apply andb_true_intro; split; apply Z.leb_le; lia.
  - apply Z.ltb_ge in Hc. unfold stoll.
    rewrite read_sign_to_string_nat.
    destruct (read_digits_to_uint (Z.to_nat c)) as [k ->].
    rewrite Z2Nat.id by lia. simpl Nat.eqb. cbv iota.
    unfold LLONG_MIN, LLONG_MAX.
    replace ((- 2 ^ 63 <=? c)%Z && (c <=? 2 ^ 63 - 1)%Z) with true; [reflexivity|].
    symmetry. apply andb_true_intro; split; apply Z.leb_le; lia.
Qed.

Lemma find_app_no_nul (a r : string) :
  no_nul a -> find NUL (a ++ String NUL r) = Some (String.length a).
Proof.
  unfold no_nul. induction a as [|x a IH]; simpl; intro H; [reflexivity|].
  destruct (Ascii.eqb x NUL); [discriminate|].
  destruct (find NUL a); [discriminate|]. now rewrite IH.
Qed.

Lemma find_app_some (c : ascii) (a b : string) (p : nat) :
  find c a = Some p -> find c (a ++ b) = Some p.
Proof.
  revert p; induction a as [|x a IH]; simpl; intros p H; [discriminate|].
  destruct (Ascii.eqb x c); [exact H|].
  destruct (find c a) as [q|]; [|discriminate].
  injection H as <-. now rewrite (IH q eq_refl).
Qed.

Lemma find_some_lt (c : ascii) (a : string) (p : nat) :
  find c a = Some p -> (p < String.length a)%nat.
Proof.
  revert p; induction a as [|x a IH]; simpl; intros p H; [discriminate|].
  destruct (Ascii.eqb x c); [injection H as <-; lia|].
  destruct (find c a) as [q|]; [|discriminate].
  injection H as <-. specialize (IH q eq_refl). lia.
Qed.

Lemma substr_prefix_app (p : nat) (a b : string) :
  (p <= String.length a)%nat -> substr_prefix p (a ++ b) = substr_prefix p a.
Proof.
  revert p; induction a as [|x a IH]; intros p Hp; simpl in *.
  - assert (p = 0%nat) as -> by lia. reflexivity.
  - destruct p; simpl; [reflexivity|]. rewrite IH by lia. reflexivity.
Qed.

Lemma substr_prefix_length (a : string) : substr_prefix (String.length a) a = a.
Proof. induction a; simpl; congruence. Qed.

Lemma substr_from_app (a r : string) (x : ascii) :
  substr_from (String.length a + 1) (a ++ String x r) = r.
Proof. induction a; simpl; auto. Qed.

(** Decoding an encoded sentence whose text has no NUL gives it back. *)
Lemma decode_encode (text : string) (c : Z) :
  no_nul text -> in_int64 c -> decode (encode (text, c)) = Normal (text, c).
Proof.
  intros Hn Hc. unfold decode, encode; simpl fst; simpl snd.
  rewrite find_app_no_nul by exact Hn.
  rewrite substr_from_app, stoll_to_string_int64 by exact Hc.
  rewrite substr_prefix_app by lia. now rewrite substr_prefix_length.
Qed.

(** With a NUL in the text, decoding either raises or returns the text
    before its first NUL. *)
Lemma decode_encode_nul (text : string) (c : Z) (p : nat) :
  find NUL text = Some p ->
  (exists e, decode (encode (text, c)) = Raised e)
  \/ (exists c', decode (encode (text, c)) = Normal (substr_prefix p text, c')).
Proof.
  intro Hp. unfold decode, encode; simpl fst; simpl snd.
  rewrite (find_app_some _ _ _ _ Hp).
  rewrite substr_prefix_app by (apply find_some_lt in Hp; lia).
  destruct (stoll _) as [c'|e]; [right; now exists c'|left; now exists e].
Qed.

End EncodingFacts.

(** ** Facts about the LevelDB map *)
Module StoreFacts.
Import LevelDB EncodingFacts.

Lemma lookup_insert_same (k v : string) (d : store) :
  lookup k (insert k v d) = Some v.
Proof.
  induction d as [|[k' v'] r IH]; simpl.
  - now rewrite string_compare_refl.
  - destruct (String.compare k k') eqn:E; simpl;
      rewrite ?string_compare_refl, ?E; auto.
Qed.

Lemma lookup_insert_other (k k2 v : string) (d : store) :
  k <> k2 -> lookup k2 (insert k v d) = lookup k2 d.
Proof.
  intro Hne. induction d as [|[k' v'] r IH]; simpl.
  - destruct (String.compare k2 k) eqn:E; auto.
    apply string_compare_eq in E. congruence.
  - destruct (String.compare k k') eqn:E; simpl.
    + apply string_compare_eq in E. subst k'.
      destruct (String.compare k2 k) eqn:E2; auto.
      apply string_compare_eq in E2. congruence.
    + destruct (String.compare k2 k) eqn:E2; auto.
      apply string_compare_eq in E2. congruence.
    + destruct (String.compare k2 k'); auto.
Qed.

Lemma lookup_remove_other (k k2 : string) (d : store) :
  k <> k2 -> lookup k2 (remove k d) = lookup k2 d.
Proof.
  intro Hne. induction d as [|[k' v'] r IH]; simpl; [reflexivity|].
  destruct (String.compare k k') eqn:E; simpl; rewrite ?IH; auto.
  apply string_compare_eq in E. subst k'.
  destruct (String.compare k2 k) eqn:E2; auto.
  apply string_compare_eq in E2. congruence.
Qed.

Lemma lookup_remove_none (k k2 : string) (d : store) :
  lookup k2 d = None -> lookup k2 (remove k d) = None.
Proof.
  induction d as [|[k' v'] r IH]; simpl; intro H; [reflexivity|].
  destruct (String.compare k2 k') eqn:E2; [discriminate| |];
    destruct (String.compare k k'); simpl; rewrite ?E2; auto.
Qed.

Lemma in_insert (k v k2 v2 : string) (d : store) :
  In (k2, v2) (insert k v d) -> (k2, v2) = (k, v) \/ In (k2, v2) d.
Proof.
  induction d as [|[k' v'] r IH]; simpl; [intuition|].
  destruct (String.compare k k'); simpl; intuition.
Qed.

Lemma in_remove (k k2 v2 : string) (d : store) :
  In (k2, v2) (remove k d) -> In (k2, v2) d.
Proof.
  induction d as [|[k' v'] r IH]; simpl; [intuition|].
  destruct (String.compare k k'); simpl; intuition.
Qed.

Import Trainer Ops.

Lemma add_ok (s : Sentence) (t : state) :
  addSentenceToDB None s t
  = (Normal tt, mk_state (insert (to_string_size (current_index_ t)) (encode s) (db_ t))
                         (size_t_incr (current_index_ t)) (cout t)).
Proof. reflexivity. Qed.

Lemma update_ok (i : N) (s : Sentence) (t : state) :
  updateSentenceInDB None i s t
  = (Normal tt, set_db t (insert (to_string_size i) (encode s) (db_ t))).
Proof. reflexivity. Qed.

Lemma get_found (i : N) (t : state) (v : string) :
  lookup (to_string_size i) (db_ t) = Some v ->
  getSentenceFromDB None i t = (decode v, t).
Proof. intro H. unfold getSentenceFromDB, Get. now rewrite H. Qed.

Lemma get_absent (i : N) (t : state) :
  lookup (to_string_size i) (db_ t) = None ->
  getSentenceFromDB None i t
  = (Raised (out_of_range
       ("Index out of range or failed to read from LevelDB: "
        ++ ToString (NotFound EmptyString))), t).
Proof. intro H. unfold getSentenceFromDB, Get. now rewrite H. Qed.

(** What one call does to the map. *)
Lemma step_db (o : store_op) (t : state) :
  (written_key o t = None /\
     (db_ (step o t) = db_ t \/ exists k, db_ (step o t) = remove k (db_ t)))
  \/ (exists k s, written_key o t = Some k /\ sentence_of o = Some s
        /\ db_ (step o t) = insert k (encode s) (db_ t)).
Proof.
  destruct o as [f s|f i|f i s|f i|f|f];
    [destruct f| |destruct f|destruct f| |].
  - left. split; [reflexivity|left; reflexivity].
  - right. do 2 eexists. repeat split.
  - left. split; [reflexivity|left]. cbn [step]. unfold getSentenceFromDB.
    destruct (Get f (db_ t) (to_string_size i)) as [st v].
    destruct (negb (ok st)); reflexivity.
  - left. split; [reflexivity|left; reflexivity].
  - right. do 2 eexists. repeat split.
  - left. split; [reflexivity|left; reflexivity].
  - left. split; [reflexivity|]. right. now exists (to_string_size i).
  - left. split; [reflexivity|left]. cbn [step]. unfold loadSentencesFromDB.
    destruct (Iterate f (db_ t)) as [es st].
    destruct (load_entries es (cout t)) as [[] out]; [destruct (ok st)|]; reflexivity.
  - left. split; [reflexivity|left]. cbn [step]. unfold getDBSize.
    destruct (Iterate f (db_ t)) as [es st]. destruct (ok st); reflexivity.
Qed.

Lemma run_lookup_none (k : string) (ops : list store_op) (t : state) :
  lookup k (db_ t) = None -> ~ In k (written_keys ops t) ->
  lookup k (db_ (run ops t)) = None.
Proof.
  revert t; induction ops as [|o r IH]; intros t Hk Hw; simpl in *; [exact Hk|].
  destruct (step_db o t) as [[Hwk [Hd|[k' Hd]]]|[k' [s [Hwk [_ Hd]]]]];
    rewrite Hwk in Hw; apply IH.
  - now rewrite Hd.
  - exact Hw.
  - rewrite Hd. now apply lookup_remove_none.
  - exact Hw.
  - rewrite Hd. rewrite lookup_insert_other; [exact Hk|]. intro E. apply Hw. now left.
  - intro H. apply Hw. now right.
Qed.

Lemma run_app (ops1 ops2 : list store_op) (t : state) :
  run (ops1 ++ ops2) t = run ops2 (run ops1 t).
Proof. revert t; induction ops1; simpl; auto. Qed.

Lemma size_t_incr_small (k : nat) :
  (N.of_nat (S k) < SIZE_MAX_PLUS_1)%N -> size_t_incr (N.of_nat k) = N.of_nat (S k).
Proof.
  intro H. unfold size_t_incr. rewrite N.mod_small; [lia|]. lia.
Qed.

Lemma run_adds_frame (k : string) (r : list Sentence) (t : state) :
  ~ In k (written_keys (map (OpAdd None) r) t) ->
  lookup k (db_ (run (map (OpAdd None) r) t)) = lookup k (db_ t).
Proof.
  revert t; induction r as [|s r IH]; intros t Hw; simpl in *; [reflexivity|].
  rewrite IH by tauto. cbn [db_]. apply lookup_insert_other. tauto.
Qed.

(** Consecutive accepted inserts from index [k]. *)
Lemma run_adds (ss : list Sentence) (t : state) (k : nat) :
  current_index_ t = N.of_nat k ->
  (N.of_nat (k + length ss) < SIZE_MAX_PLUS_1)%N ->
  current_index_ (run (map (OpAdd None) ss) t) = N.of_nat (k + length ss)
  /\ written_keys (map (OpAdd None) ss) t
     = map (fun i => to_string_size (N.of_nat i)) (seq k (length ss))
  /\ (forall i s, nth_error ss i = Some s ->
      lookup (to_string_size (N.of_nat (k + i))) (db_ (run (map (OpAdd None) ss) t))
      = Some (encode s)).
Proof.
  revert t k; induction ss as [|s r IH]; intros t k Hk Hb.
  - simpl. rewrite Nat.add_0_r. split; [exact Hk|]. split; [reflexivity|].
    intros i s H. destruct i; discriminate.
  - cbn [map run written_keys written_key length seq].
    set (t1 := step (OpAdd None s) t).
    assert (Hk1 : current_index_ t1 = N.of_nat (S k)).
    { unfold t1. cbn [step]. rewrite add_ok. cbn [snd current_index_].
      rewrite Hk. apply size_t_incr_small. simpl length in Hb. lia. }
    destruct (IH t1 (S k) Hk1) as [H1 [H2 H3]]; [simpl length in Hb; lia|].
    split; [rewrite H1; f_equal; simpl; lia|].
    split; [rewrite H2, Hk; reflexivity|].
    intros [|i] s' Hi; cbn [nth_error] in Hi.
    + injection Hi as <-. rewrite Nat.add_0_r, run_adds_frame.
      * unfold t1. cbn [step]. rewrite add_ok, Hk. apply lookup_insert_same.
      * rewrite H2. intro Hin. apply in_map_iff in Hin as [i' [E Hin]].
        apply to_string_size_inj, Nat2N.inj in E. apply in_seq in Hin. lia.
    + replace (k + S i)%nat with (S k + i)%nat by lia. now apply H3.
Qed.

(** Every stored value encodes a sentence whose count is at least 1. *)
Definition counts_ok (d : store) : Prop :=
  forall k v, In (k, v) d -> exists text c, v = encode (text, c) /\ (1 <= c)%Z.

(** The map is kept in increasing bytewise order of its keys. *)
Definition key_sorted (d : store) : Prop :=
  StronglySorted (fun a b => String.compare (fst a) (fst b) = Lt) d.

Lemma string_compare_lt_trans (a b c : string) :
  String.compare a b = Lt -> String.compare b c = Lt -> String.compare a c = Lt.
Proof.
  revert b c; induction a as [|x a IH]; intros [|y b] [|z c]; simpl;
    try discriminate; auto.
  unfold Ascii.compare.
  destruct (N.compare_spec (N_of_ascii x) (N_of_ascii y));
  destruct (N.compare_spec (N_of_ascii y) (N_of_ascii z));
  destruct (N.compare_spec (N_of_ascii x) (N_of_ascii z));
  intros Hab Hbc; try discriminate; try lia; eauto.
Qed.

Lemma insert_sorted (k v : string) (d : store) :
  key_sorted d -> key_sorted (insert k v d).
Proof.
  unfold key_sorted. induction d as [|[k' v'] r IH]; intro H; simpl.
  - repeat constructor.
  - apply StronglySorted_inv in H as [Hr Hf].
    destruct (String.compare k k') eqn:E.
    + apply string_compare_eq in E. subst k'. now constructor.
    + constructor; [now constructor|].
      constructor; [exact E|].
      eapply Forall_impl; [|exact Hf]. intros a Ha. eapply string_compare_lt_trans; eauto.
    + constructor; [now apply IH|].
      apply Forall_forall. intros [k2 v2] Hin. apply in_insert in Hin as [Ex|Hin].
      * injection Ex as -> ->. simpl. rewrite String.compare_antisym, E. reflexivity.
      * rewrite Forall_forall in Hf. exact (Hf _ Hin).
Qed.

Lemma remove_sorted (k : string) (d : store) :
  key_sorted d -> key_sorted (remove k d).
Proof.
  unfold key_sorted. induction d as [|[k' v'] r IH]; intro H; simpl; [constructor|].
  apply StronglySorted_inv in H as [Hr Hf].
  destruct (String.compare k k'); [exact Hr| |];
    (constructor; [now apply IH|]);
    apply Forall_forall; intros [k2 v2] Hin; apply in_remove in Hin;
    rewrite Forall_forall in Hf; exact (Hf _ Hin).
Qed.

Lemma run_sorted (ops : list store_op) (t : state) :
  key_sorted (db_ t) -> key_sorted (db_ (run ops t)).
Proof.
  revert t; induction ops as [|o r IH]; intros t H; simpl; [exact H|].
  apply IH.
  destruct (step_db o t) as [[_ [Hd|[k' Hd]]]|[k' [s [_ [_ Hd]]]]]; rewrite Hd.
  - exact H.
  - now apply remove_sorted.
  - now apply insert_sorted.
Qed.

Lemma insert_last (k v : string) (d : store) :
  (forall x, In x d -> String.compare k (fst x) = Gt) -> insert k v d = (d ++ [(k, v)])%list.
Proof.
  induction d as [|[k' v'] r IH]; intro H; simpl; [reflexivity|].
  pose proof (H (k', v') (or_introl eq_refl)) as Hk. simpl in Hk. rewrite Hk.
  f_equal. apply IH. intros x Hx. apply H. now right.
Qed.

Lemma key_lt_small (i k : nat) :
  (i < k)%nat -> (k < 10)%nat ->
  String.compare (to_string_size (N.of_nat k)) (to_string_size (N.of_nat i)) = Gt.
Proof.
  intros Hik Hk.
  do 10 (destruct i as [|i];
         [do 10 (destruct k as [|k]; [try lia; reflexivity|]); lia|]).
  lia.
Qed.

(** The records written by inserts [k], [k+1], ... *)
Fixpoint entries (k : nat) (ss : list Sentence) : store :=
  match ss with
  | [] => []
  | s :: r => (to_string_size (N.of_nat k), encode s) :: entries (S k) r
  end.

Lemma run_adds_small (ss : list Sentence) (t : state) (k : nat) :
  current_index_ t = N.of_nat k -> (k + length ss <= 10)%nat ->
  (forall x, In x (db_ t) -> exists i, (i < k)%nat /\ fst x = to_string_size (N.of_nat i)) ->
  db_ (run (map (OpAdd None) ss) t) = (db_ t ++ entries k ss)%list.
Proof.
  revert t k; induction ss as [|s r IH]; intros t k Hk Hlen Hd; cbn [map run].
  - now rewrite app_nil_r.
  - cbn [step]. rewrite add_ok. cbn [snd]. rewrite IH with (k := S k).
    + cbn [db_]. rewrite Hk, insert_last, <- app_assoc; [reflexivity|].
      intros x Hx. destruct (Hd x Hx) as [i [Hi ->]].
      apply key_lt_small; simpl in Hlen; lia.
    + cbn [current_index_]. rewrite Hk. apply size_t_incr_small.
      simpl in Hlen. unfold SIZE_MAX_PLUS_1. lia.
    + simpl in Hlen. lia.
    + cbn [db_]. intros x Hx. rewrite Hk, insert_last in Hx.
      * apply in_app_or in Hx as [Hx|[<-|[]]].
        -- destruct (Hd x Hx) as [i [Hi E]]. exists i. split; [lia|exact E].
        -- exists k. split; [lia|reflexivity].
      * intros y Hy. destruct (Hd y Hy) as [i [Hi ->]].
        apply key_lt_small; simpl in Hlen; lia.
Qed.

Lemma load_entries_ok (k : nat) (ss : list Sentence) (out : list string) :
  Forall (fun s => no_nul (fst s) /\ in_int64 (snd s)) ss ->
  load_entries (entries k ss) out = (Normal tt, (out ++ map print_line ss)%list).
Proof.
  revert k out; induction ss as [|s r IH]; intros k out H; simpl.
  - now rewrite app_nil_r.
  - apply Forall_cons_iff in H as [[Hn Hc] Hr].
    destruct s as [text c]. rewrite decode_encode by assumption.
    rewrite IH by assumption. now rewrite <- app_assoc.
Qed.

End StoreFacts.


(** ** Exceptions of the decoding, and positions in the scan *)
Module ScanFacts.
Import LevelDB Trainer EncodingFacts StoreFacts.

Lemma stoll_raises (str : string) (e : exception) :
  stoll str = Raised e -> e = invalid_argument "stoll" \/ e = out_of_range "stoll".
Proof.
  unfold stoll. destruct (read_sign (skip_space (c_str str))) as [neg s2].
  destruct (read_digits s2 0 0) as [m nd].
  destruct (Nat.eqb nd 0); [intro H; injection H as <-; now left|].
  destruct (_ && _)%bool; intro H; [discriminate|injection H as <-; now right].
Qed.

Lemma decode_raises (v : string) (e : exception) :
  decode v = Raised e ->
  e = runtime_error "Corrupted value in LevelDB"
  \/ e = invalid_argument "stoll" \/ e = out_of_range "stoll".
Proof.
  unfold decode. destruct (find NUL v) as [pos|]; [|intro H; injection H as <-; now left].
  destruct (stoll (substr_from (pos + 1) v)) eqn:E; intro H; [discriminate|].
  injection H as <-. right. now apply (stoll_raises _ _ E).
Qed.

Lemma lookup_in (k v : string) (d : store) : lookup k d = Some v -> In (k, v) d.
Proof.
  induction d as [|[k' v'] r IH]; simpl; [discriminate|].
  destruct (String.compare k k') eqn:E; intro H; try discriminate.
  - injection H as <-. apply string_compare_eq in E. subst. now left.
  - right. now apply IH.
  - right. now apply IH.
Qed.

Lemma string_compare_lt_asym (a b : string) :
  String.compare a b = Lt -> String.compare b a <> Lt.
Proof.
  intros H1 H2. pose proof (string_compare_lt_trans _ _ _ H1 H2) as H.
  now rewrite string_compare_refl in H.
Qed.

(** In a store kept in key order, a smaller key comes before a larger one. *)
Lemma sorted_before (d : store) (a b x y : string) :
  key_sorted d -> In (a, x) d -> In (b, y) d -> String.compare a b = Lt ->
  exists l1 l2 l3, d = (l1 ++ (a, x) :: l2 ++ (b, y) :: l3)%list.
Proof.
  induction d as [|[k v] r IH]; intros Hs Ha Hb Hab; [destruct Ha|].
  apply StronglySorted_inv in Hs as [Sr Fr]. rewrite Forall_forall in Fr.
  destruct Ha as [Ea|Ha].
  - injection Ea as <- <-.
    destruct Hb as [Eb|Hb].
    + injection Eb as -> ->. now rewrite string_compare_refl in Hab.
    + apply in_split in Hb as [l2 [l3 ->]]. now exists [], l2, l3.
  - destruct Hb as [Eb|Hb].
    + injection Eb as -> ->. specialize (Fr _ Ha). cbn [fst] in Fr.
      exfalso. exact (string_compare_lt_asym _ _ Hab Fr).
    + destruct (IH Sr Ha Hb Hab) as [l1 [l2 [l3 ->]]].
      now exists ((k, v) :: l1), l2, l3.
Qed.

(** The loop of [loadSentencesFromDB] either decodes every visited value
    and returns, or stops on a value whose decoding raises, with that
    exception. *)
Lemma load_entries_cases (es : list (string * string)) (out : list string) :
  (Forall (fun kv => exists s, decode (snd kv) = Normal s) es
   /\ exists out', load_entries es out = (Normal tt, out'))
  \/ (exists e out', load_entries es out = (Raised e, out')
        /\ exists kv, In kv es /\ decode (snd kv) = Raised e).
Proof.
  revert out; induction es as [|[k v] r IH]; intro out; simpl.
  - left. split; [constructor|now exists out].
  - destruct (decode v) as [s|e] eqn:E.
    + destruct (IH (out ++ [print_line s])%list) as [[F L]|[e [out' [L [kv [Hi Hd]]]]]].
      * left. split; [constructor; [now exists s|exact F]|exact L].
      * right. exists e, out'. split; [exact L|]. exists kv. split; [now right|exact Hd].
    + right. exists e, out. split; [reflexivity|]. exists (k, v). split; [now left|exact E].
Qed.

End ScanFacts.


(** ** The store methods against the specification *)
Module StoreSpec.
Import LevelDB Trainer Ops EncodingFacts StoreFacts ScanFacts.

Definition empty_trainer : state := mk_state [] 0%N [].

(** C1 (as stated, refuted): a text with a NUL byte does not come back.
    Inserting ["a\07"] with count 5 and reading id 0 gives [("a", 7)]. *)
Lemma add_get_roundtrip_counterexample :
  let s := ("a" ++ String NUL "7", 5%Z) in
  let '(r, t1) := addSentenceToDB None s empty_trainer in
  r = Normal tt
  /\ fst (getSentenceFromDB None 0 t1) = Normal ("a", 7%Z)
  /\ fst (getSentenceFromDB None 0 t1) <> Normal s.
Proof. vm_compute. split; [reflexivity|split; [reflexivity|discriminate]]. Qed.

(** C1 (amended): when the write is accepted, a sentence whose text has no
    NUL byte, inserted with [addSentenceToDB], is read back by
    [getSentenceFromDB] at the id the insert used ([current_index_] before
    the call) as the same [(text, count)]. *)
Theorem add_get_roundtrip (t : state) (s : Sentence) :
  no_nul (fst s) -> in_int64 (snd s) ->
  let '(r, t') := addSentenceToDB None s t in
  r = Normal tt /\ fst (getSentenceFromDB None (current_index_ t) t') = Normal s.
Proof.
  intros Hn Hc. rewrite add_ok. split; [reflexivity|].
  rewrite (get_found _ _ (encode s)) by (simpl; apply lookup_insert_same).
  destruct s as [text c]. simpl. now apply decode_encode.
Qed.

Lemma add_get_roundtrip_witness :
  no_nul "a b" /\ in_int64 3%Z /\
  (let '(r, t') := addSentenceToDB None ("a b", 3%Z) empty_trainer in
   r = Normal tt
   /\ fst (getSentenceFromDB None (current_index_ empty_trainer) t') = Normal ("a b", 3%Z)).
Proof.
  split; [reflexivity|]. split; [unfold in_int64, LLONG_MIN, LLONG_MAX; lia|].
  apply (add_get_roundtrip empty_trainer ("a b", 3%Z));
    [reflexivity|unfold in_int64, LLONG_MIN, LLONG_MAX; simpl; lia].
Defined.

Lemma set_db_same (t : state) : set_db t (db_ t) = t.
Proof. destruct t; reflexivity. Qed.

(** C9: the value stored by [addSentenceToDB] and by [updateSentenceInDB]
    is the text, a NUL byte and the decimal count.  Reading it back with
    [getSentenceFromDB] gives exactly [(text, count)] when the text has no
    NUL byte; when the text has one, any text returned is the part of the
    text before its first NUL byte. *)
Theorem nul_separated_encoding (t : state) (i : N) (s : Sentence) :
  in_int64 (snd s) ->
  lookup (to_string_size (current_index_ t)) (db_ (snd (addSentenceToDB None s t)))
    = Some (fst s ++ String NUL (to_string_int64 (snd s)))
  /\ lookup (to_string_size i) (db_ (snd (updateSentenceInDB None i s t)))
    = Some (fst s ++ String NUL (to_string_int64 (snd s)))
  /\ (no_nul (fst s) ->
      fst (getSentenceFromDB None (current_index_ t) (snd (addSentenceToDB None s t)))
        = Normal s
      /\ fst (getSentenceFromDB None i (snd (updateSentenceInDB None i s t))) = Normal s)
  /\ (forall p, find NUL (fst s) = Some p ->
      forall text' c',
      (fst (getSentenceFromDB None (current_index_ t) (snd (addSentenceToDB None s t)))
         = Normal (text', c')
       \/ fst (getSentenceFromDB None i (snd (updateSentenceInDB None i s t)))
         = Normal (text', c')) ->
      text' = substr_prefix p (fst s)).
Proof.
  intro Hc. rewrite add_ok, update_ok. cbn [snd db_ set_db current_index_].
  rewrite !lookup_insert_same.
  rewrite (get_found (current_index_ t) _ (encode s)) by apply lookup_insert_same.
  rewrite (get_found i _ (encode s)) by apply lookup_insert_same.
  cbn [fst]. destruct s as [text c]. cbn [fst snd] in *.
  split; [reflexivity|]. split; [reflexivity|]. split.
  - intro Hn. rewrite decode_encode by assumption. now split.
  - intros p Hp text' c' H.
    destruct (decode_encode_nul text c p Hp) as [[e He]|[c'' He]];
      rewrite He in H; destruct H as [H|H]; try discriminate;
      injection H; auto.
Qed.

Lemma nul_separated_encoding_witness :
  in_int64 3%Z /\
  lookup (to_string_size (current_index_ empty_trainer))
    (db_ (snd (addSentenceToDB None ("ab", 3%Z) empty_trainer)))
    = Some ("ab" ++ String NUL (to_string_int64 3%Z))
  /\ lookup (to_string_size 4) (db_ (snd (updateSentenceInDB None 4 ("ab", 3%Z) empty_trainer)))
    = Some ("ab" ++ String NUL (to_string_int64 3%Z))
  /\ (no_nul "ab" ->
      fst (getSentenceFromDB None (current_index_ empty_trainer)
             (snd (addSentenceToDB None ("ab", 3%Z) empty_trainer))) = Normal ("ab", 3%Z)
      /\ fst (getSentenceFromDB None 4 (snd (updateSentenceInDB None 4 ("ab", 3%Z) empty_trainer)))
         = Normal ("ab", 3%Z))
  /\ (forall p, find NUL "ab" = Some p ->
      forall text' c',
      (fst (getSentenceFromDB None (current_index_ empty_trainer)
              (snd (addSentenceToDB None ("ab", 3%Z) empty_trainer))) = Normal (text', c')
       \/ fst (getSentenceFromDB None 4 (snd (updateSentenceInDB None 4 ("ab", 3%Z) empty_trainer)))
          = Normal (text', c')) ->
      text' = substr_prefix p "ab").
Proof.
  split; [unfold in_int64, LLONG_MIN, LLONG_MAX; lia|].
  apply (nul_separated_encoding empty_trainer 4 ("ab", 3%Z)).
  unfold in_int64, LLONG_MIN, LLONG_MAX; simpl; lia.
Defined.

(** C7 (as stated, refuted): updating id 0 with the text ["a\07"] and
    count 5 reads back as [("a", 7)]. *)
Lemma update_get_counterexample :
  let s := ("a" ++ String NUL "7", 5%Z) in
  let '(r, t1) := updateSentenceInDB None 0 s empty_trainer in
  r = Normal tt
  /\ fst (getSentenceFromDB None 0 t1) = Normal ("a", 7%Z)
  /\ fst (getSentenceFromDB None 0 t1) <> Normal s.
Proof. vm_compute. split; [reflexivity|split; [reflexivity|discriminate]]. Qed.

(** C7 (amended): when the write is accepted, [updateSentenceInDB i s]
    succeeds whatever is stored under [i] (an upsert) and stores the
    encoding of [s] under [i], for every text; every other id maps to the
    value it had, and [current_index_] is unchanged.  Afterwards
    [getSentenceFromDB i] returns [s] when its text has no NUL byte (its
    count being an [int64_t]). *)
Theorem update_upsert (t : state) (i : N) (s : Sentence) :
  let '(r, t') := updateSentenceInDB None i s t in
  r = Normal tt
  /\ lookup (to_string_size i) (db_ t') = Some (encode s)
  /\ (no_nul (fst s) -> in_int64 (snd s) -> fst (getSentenceFromDB None i t') = Normal s)
  /\ (forall j, j <> i ->
        lookup (to_string_size j) (db_ t') = lookup (to_string_size j) (db_ t))
  /\ current_index_ t' = current_index_ t.
Proof.
  rewrite update_ok. split; [reflexivity|]. split; [apply lookup_insert_same|]. split.
  - intros Hn Hc. rewrite (get_found _ _ (encode s)) by apply lookup_insert_same.
    destruct s; now apply decode_encode.
  - split; [|reflexivity]. intros j Hj. cbn [db_ set_db].
    apply lookup_insert_other. intro E. apply to_string_size_inj in E. auto.
Qed.

Lemma update_upsert_witness :
  let '(r, t') := updateSentenceInDB None 7 ("a b", 2%Z) empty_trainer in
  fst (getSentenceFromDB None 7 t') = Normal ("a b", 2%Z).
Proof.
  pose proof (update_upsert empty_trainer 7 ("a b", 2%Z)) as H.
  destruct (updateSentenceInDB None 7 ("a b", 2%Z) empty_trainer) as [r t'].
  destruct H as [_ [_ [H _]]]. apply H; [reflexivity|].
  unfold in_int64; split; apply Z.leb_le; reflexivity.
Defined.

(** C10: a rejected write in [addSentenceToDB] throws before
    [++current_index_]: the object is left as it was, and the next accepted
    insert writes under the id the failed one would have used. *)
Theorem add_failure_keeps_index (t : state) (m : string) (s s' : Sentence) :
  addSentenceToDB (Some m) s t
    = (Raised (runtime_error ("Failed to write to LevelDB: " ++ ToString (IOError m))), t)
  /\ lookup (to_string_size (current_index_ t))
       (db_ (snd (addSentenceToDB None s' (snd (addSentenceToDB (Some m) s t)))))
     = Some (encode s')
  /\ current_index_ (snd (addSentenceToDB None s' (snd (addSentenceToDB (Some m) s t))))
     = size_t_incr (current_index_ t).
Proof.
  assert (E : addSentenceToDB (Some m) s t
    = (Raised (runtime_error ("Failed to write to LevelDB: " ++ ToString (IOError m))), t)).
  { unfold addSentenceToDB, Put. cbn. now rewrite set_db_same. }
  rewrite E. cbn [snd]. rewrite add_ok. cbn [db_ current_index_].
  split; [reflexivity|]. split; [apply lookup_insert_same|reflexivity].
Qed.

Definition not_found_error : exception :=
  out_of_range ("Index out of range or failed to read from LevelDB: "
                ++ ToString (NotFound EmptyString)).

(** C3 (as stated, refuted): a record is stored under id 0 and its value
    has the NUL separator, yet [getSentenceFromDB 0] fails: the text
    ["a\0"] leaves nothing for [std::stoll] to read. *)
Lemma get_failure_counterexample :
  let t1 := snd (addSentenceToDB None ("a" ++ String NUL "", 5%Z) empty_trainer) in
  exists v, lookup (to_string_size 0) (db_ t1) = Some v
  /\ find NUL v <> None
  /\ fst (getSentenceFromDB None 0 t1) = Raised (invalid_argument "stoll").
Proof. vm_compute. eexists. split; [reflexivity|split; [discriminate|reflexivity]]. Qed.

(** C3 (amended): with a working medium, [getSentenceFromDB i] throws the
    exception [e] exactly when either no record is stored under [i] and [e]
    is the not-found [std::out_of_range], or the stored value has no NUL
    separator and [e] is [std::runtime_error "Corrupted value in LevelDB"],
    or the text after the first NUL does not parse with [std::stoll] and [e]
    is the [std::invalid_argument] or [std::out_of_range] it throws; an id
    that was not in the store when it was opened and that no accepted insert
    or update wrote since yields the not-found error. *)
Theorem get_failure_cases (t : state) (i : N) (ops : list store_op) :
  (forall e, fst (getSentenceFromDB None i t) = Raised e
   <-> (lookup (to_string_size i) (db_ t) = None /\ e = not_found_error)
       \/ (exists v, lookup (to_string_size i) (db_ t) = Some v /\ find NUL v = None
             /\ e = runtime_error "Corrupted value in LevelDB")
       \/ (exists v pos, lookup (to_string_size i) (db_ t) = Some v
             /\ find NUL v = Some pos /\ stoll (substr_from (pos + 1) v) = Raised e
             /\ (e = invalid_argument "stoll" \/ e = out_of_range "stoll")))
  /\ (lookup (to_string_size i) (db_ t) = None ->
      ~ In (to_string_size i) (written_keys ops t) ->
      getSentenceFromDB None i (run ops t) = (Raised not_found_error, run ops t)).
Proof.
  split.
  - intro e. destruct (lookup (to_string_size i) (db_ t)) as [v|] eqn:Hl.
    + rewrite (get_found _ _ v Hl). cbn [fst]. unfold decode.
      destruct (find NUL v) as [pos|] eqn:Hf.
      * destruct (stoll (substr_from (pos + 1) v)) as [c|e'] eqn:Hs.
        -- split; [discriminate|].
           intros [[H _]|[[v' [H1 [H2 _]]]|[v' [pos' [H1 [H2 [H3 _]]]]]]]; try discriminate.
           ++ injection H1 as <-. congruence.
           ++ injection H1 as <-. rewrite Hf in H2. injection H2 as <-. congruence.
        -- split.
           ++ intro H. injection H as <-. right; right. exists v, pos.
              split; [reflexivity|]. split; [exact Hf|]. split; [exact Hs|].
              exact (stoll_raises _ _ Hs).
           ++ intros [[H _]|[[v' [H1 [H2 _]]]|[v' [pos' [H1 [H2 [H3 _]]]]]]]; try discriminate.
              ** injection H1 as <-. congruence.
              ** injection H1 as <-. rewrite Hf in H2. injection H2 as <-. congruence.
      * split.
        -- intro H. injection H as <-. right; left. exists v. now split.
        -- intros [[H _]|[[v' [H1 [H2 ->]]]|[v' [pos' [H1 [H2 _]]]]]]; try discriminate.
           ++ reflexivity.
           ++ injection H1 as <-. congruence.
    + rewrite (get_absent _ _ Hl). cbn [fst]. split.
      * intro H. injection H as <-. left. now split.
      * intros [[_ ->]|[[v' [H1 _]]|[v' [pos' [H1 _]]]]]; try discriminate. reflexivity.
  - intros Hn Hw. apply get_absent. now apply run_lookup_none.
Qed.

Lemma get_failure_cases_witness :
  fst (getSentenceFromDB None 0 (mk_state [("0", "a" ++ String NUL "x")] 1%N []))
    = Raised (invalid_argument "stoll")
  /\ fst (getSentenceFromDB None 0 (mk_state [("0", "plain")] 1%N []))
    = Raised (runtime_error "Corrupted value in LevelDB")
  /\ getSentenceFromDB None 3 (run [OpAdd None ("x", 1%Z)] empty_trainer)
    = (Raised not_found_error, run [OpAdd None ("x", 1%Z)] empty_trainer).
Proof.
  split; [|split].
  - apply (proj1 (get_failure_cases (mk_state [("0", "a" ++ String NUL "x")] 1%N []) 0 []) _).
    right; right. exists ("a" ++ String NUL "x"), 1%nat.
    split; [reflexivity|]. split; [reflexivity|]. split; [reflexivity|]. now left.
  - apply (proj1 (get_failure_cases (mk_state [("0", "plain")] 1%N []) 0 []) _).
    right; left. exists "plain". split; [reflexivity|]. now split.
  - apply (proj2 (get_failure_cases empty_trainer 3 [OpAdd None ("x", 1%Z)]));
      [reflexivity|cbn; intros [H|[]]; discriminate].
Defined.

(** C8 (as stated, refuted): a rejected write makes [addSentenceToDB]
    throw [std::runtime_error]; it returns no status value. *)
Lemma failure_reporting_counterexample :
  fst (addSentenceToDB (Some "disk full") ("a", 1%Z) empty_trainer)
    = Raised (runtime_error "Failed to write to LevelDB: IO error: disk full")
  /\ forall u, fst (addSentenceToDB (Some "disk full") ("a", 1%Z) empty_trainer) <> Normal u.
Proof. split; [reflexivity|intros u; discriminate]. Qed.

(** C8 (amended): every storage failure aborts the store method at once
    and is thrown as a C++ exception, never returned as a status value.
    The constructor, insert, update, delete and size throw
    [std::runtime_error] carrying the LevelDB status text, get throws
    [std::out_of_range] carrying it; insert, get, update, delete and size
    leave the object as it was.  A scan that fails after reading some
    records leaves the map and the index as they were; it throws
    [std::runtime_error] with the status text exactly when every record read
    before the failure decodes, and otherwise the decoding exception of a
    record it read ([std::runtime_error "Corrupted value in LevelDB"], or
    [std::invalid_argument] or [std::out_of_range] from [std::stoll]). *)
Theorem store_failures_throw (t : state) (m : string) (s : Sentence) (i : N)
    (n : nat) (d0 : store) :
  TrainerInterface (IOError m) d0
    = Raised (runtime_error ("Failed to open LevelDB: " ++ ToString (IOError m)))
  /\ addSentenceToDB (Some m) s t
    = (Raised (runtime_error ("Failed to write to LevelDB: " ++ ToString (IOError m))), t)
  /\ getSentenceFromDB (Some m) i t
    = (Raised (out_of_range ("Index out of range or failed to read from LevelDB: "
                             ++ ToString (IOError m))), t)
  /\ updateSentenceInDB (Some m) i s t
    = (Raised (runtime_error ("Failed to update LevelDB: " ++ ToString (IOError m))), t)
  /\ removeSentenceFromDB (Some m) i t
    = (Raised (runtime_error ("Failed to delete from LevelDB: " ++ ToString (IOError m))), t)
  /\ getDBSize (Some (n, m)) t
    = (Raised (runtime_error ("Failed to iterate LevelDB: " ++ ToString (IOError m))), t)
  /\ exists e t', loadSentencesFromDB (Some (n, m)) t = (Raised e, t')
       /\ db_ t' = db_ t /\ current_index_ t' = current_index_ t
       /\ ((Forall (fun kv => exists s, decode (snd kv) = Normal s) (firstn n (db_ t))
            /\ e = runtime_error ("Failed to iterate LevelDB: " ++ ToString (IOError m)))
           \/ exists kv, In kv (firstn n (db_ t)) /\ decode (snd kv) = Raised e
                /\ (e = runtime_error "Corrupted value in LevelDB"
                    \/ e = invalid_argument "stoll" \/ e = out_of_range "stoll")).
Proof.
  repeat split; try (cbn; rewrite ?set_db_same; reflexivity).
  unfold loadSentencesFromDB, Iterate.
  destruct (load_entries_cases (firstn n (db_ t)) (cout t))
    as [[F [out L]]|[e [out [L [kv [Hi Hd]]]]]]; rewrite L.
  - do 2 eexists. split; [reflexivity|]. split; [reflexivity|]. split; [reflexivity|].
    left. now split.
  - do 2 eexists. split; [reflexivity|]. split; [reflexivity|]. split; [reflexivity|].
    right. exists kv. split; [exact Hi|]. split; [exact Hd|]. exact (decode_raises _ _ Hd).
Qed.

(** C5: [addSentenceToDB] keys the [i]-th accepted insert, counted from a
    fresh object, by the id [i]: the ids are 0, 1, 2, ... in order, one per
    insert, and inserting equal texts twice leaves two records, each under
    its own id. *)
Theorem add_sequential_ids (ss : list Sentence) (t : state) :
  current_index_ t = 0%N ->
  (N.of_nat (length ss) < SIZE_MAX_PLUS_1)%N ->
  current_index_ (run (map (OpAdd None) ss) t) = N.of_nat (length ss)
  /\ written_keys (map (OpAdd None) ss) t
     = map (fun i => to_string_size (N.of_nat i)) (seq 0 (length ss))
  /\ (forall i s, nth_error ss i = Some s ->
      lookup (to_string_size (N.of_nat i)) (db_ (run (map (OpAdd None) ss) t))
      = Some (encode s)).
Proof.
  intros H0 Hb. exact (run_adds ss t 0 H0 Hb).
Qed.

Lemma add_sequential_ids_witness :
  current_index_ empty_trainer = 0%N
  /\ (N.of_nat (length [("a b", 1%Z); ("a b", 1%Z); ("c", 1%Z)]) < SIZE_MAX_PLUS_1)%N
  /\ current_index_ (run (map (OpAdd None) [("a b", 1%Z); ("a b", 1%Z); ("c", 1%Z)])
                         empty_trainer) = 3%N
  /\ written_keys (map (OpAdd None) [("a b", 1%Z); ("a b", 1%Z); ("c", 1%Z)]) empty_trainer
     = ["0"; "1"; "2"]
  /\ (forall i s, nth_error [("a b", 1%Z); ("a b", 1%Z); ("c", 1%Z)] i = Some s ->
      lookup (to_string_size (N.of_nat i))
        (db_ (run (map (OpAdd None) [("a b", 1%Z); ("a b", 1%Z); ("c", 1%Z)]) empty_trainer))
      = Some (encode s)).
Proof.
  assert (Hb : (N.of_nat (length [("a b", 1%Z); ("a b", 1%Z); ("c", 1%Z)])
                < SIZE_MAX_PLUS_1)%N) by (vm_compute; reflexivity).
  destruct (add_sequential_ids [("a b", 1%Z); ("a b", 1%Z); ("c", 1%Z)] empty_trainer
              eq_refl Hb) as [H1 [H2 H3]].
  split; [reflexivity|]. split; [exact Hb|]. split; [exact H1|]. split; [exact H2|exact H3].
Defined.

(** C6 (as stated, refuted): the store does not check counts; inserting
    [("a", 0)] stores and reads back a record with count 0. *)
Lemma stored_count_counterexample :
  let '(r, t1) := addSentenceToDB None ("a", 0%Z) empty_trainer in
  r = Normal tt /\ fst (getSentenceFromDB None 0 t1) = Normal ("a", 0%Z).
Proof. vm_compute. split; reflexivity. Qed.

(** C6 (amended): the store keeps [count >= 1] for every record only as
    long as every sentence handed to insert or update has [count >= 1]:
    after any sequence of calls, accepted or failing, every stored value is
    the encoding of a sentence with [count >= 1] when this held when the
    store was opened. *)
Theorem stored_counts_positive (ops : list store_op) (t : state) :
  counts_ok (db_ t) ->
  (forall o s, In o ops -> sentence_of o = Some s -> (1 <= snd s)%Z) ->
  counts_ok (db_ (run ops t)).
Proof.
  revert t; induction ops as [|o r IH]; intros t Ht Hops; simpl; [exact Ht|].
  apply IH; [|intros o' s' Hin; apply Hops; now right].
  destruct (step_db o t) as [[_ [Hd|[k' Hd]]]|[k' [s [_ [Hs Hd]]]]]; rewrite Hd.
  - exact Ht.
  - intros k v Hin. apply in_remove in Hin. now apply (Ht k).
  - intros k v Hin. apply in_insert in Hin as [E|Hin].
    + injection E as -> ->. exists (fst s), (snd s). split.
      * now destruct s.
      * apply (Hops o s); [now left|exact Hs].
    + now apply (Ht k).
Qed.

Lemma stored_counts_positive_witness :
  counts_ok (db_ empty_trainer)
  /\ (forall o s, In o [OpAdd None ("a", 1%Z); OpUpdate None 0 ("b", 2%Z)] ->
        sentence_of o = Some s -> (1 <= snd s)%Z)
  /\ counts_ok (db_ (run [OpAdd None ("a", 1%Z); OpUpdate None 0 ("b", 2%Z)] empty_trainer)).
Proof.
  assert (H0 : counts_ok (db_ empty_trainer)) by (intros k v []).
  assert (H1 : forall o s, In o [OpAdd None ("a", 1%Z); OpUpdate None 0 ("b", 2%Z)] ->
                 sentence_of o = Some s -> (1 <= snd s)%Z).
  { intros o s [<-|[<-|[]]]; simpl; intro E; injection E as <-; simpl; lia. }
  split; [exact H0|]. split; [exact H1|].
  exact (stored_counts_positive _ empty_trainer H0 H1).
Defined.

(** The sentences ["s0"], ..., ["s10"], each with count 1. *)
Definition eleven_sentences : list Sentence :=
  map (fun i => (String "s" (to_string_nat i), 1%Z)) (seq 0 11).

(** C4 (as stated, refuted): after eleven inserts into an empty store, a
    full scan prints id 10 right after id 1, before id 2. *)
Lemma scan_order_counterexample :
  let t := run (map (OpAdd None) eleven_sentences ++ [OpLoad None]) empty_trainer in
  cout t = map print_line
    [("s0", 1%Z); ("s1", 1%Z); ("s10", 1%Z); ("s2", 1%Z); ("s3", 1%Z); ("s4", 1%Z);
     ("s5", 1%Z); ("s6", 1%Z); ("s7", 1%Z); ("s8", 1%Z); ("s9", 1%Z)]
  /\ cout t <> map print_line eleven_sentences.
Proof. vm_compute. split; [reflexivity|discriminate]. Qed.

(** C4 (amended): the map stays in increasing bytewise order of its keys,
    the decimal texts of the ids, under every sequence of calls, and a full
    scan visits the records in that order.  From an empty store, after at
    most ten inserts (ids 0 to 9) the scan's iterator yields the records in
    insertion order, whatever their texts, and when no text has a NUL byte
    the scan prints them all in that order.  After eleven or more inserts
    the iterator yields the record of id 10 before the record of id 2. *)
Theorem scan_visits_key_order (ops : list store_op) (t : state) (ss : list Sentence) :
  (key_sorted (db_ t) -> key_sorted (db_ (run ops t)))
  /\ ((length ss <= 10)%nat ->
      fst (Iterate None (db_ (run (map (OpAdd None) ss) empty_trainer))) = entries 0 ss
      /\ (Forall (fun s => no_nul (fst s) /\ in_int64 (snd s)) ss ->
          cout (run (map (OpAdd None) ss ++ [OpLoad None]) empty_trainer)
          = map print_line ss))
  /\ ((11 <= length ss)%nat -> (N.of_nat (length ss) < SIZE_MAX_PLUS_1)%N ->
      exists l1 l2 l3 s10 s2,
        nth_error ss 10 = Some s10 /\ nth_error ss 2 = Some s2
        /\ fst (Iterate None (db_ (run (map (OpAdd None) ss) empty_trainer)))
           = (l1 ++ (to_string_size 10, encode s10) :: l2
                 ++ (to_string_size 2, encode s2) :: l3)%list).
Proof.
  split; [apply run_sorted|]. split.
  - intros Hlen.
    assert (Hd : db_ (run (map (OpAdd None) ss) empty_trainer) = entries 0 ss).
    { rewrite (run_adds_small ss empty_trainer 0 eq_refl Hlen) by (intros x []).
      reflexivity. }
    split; [now rewrite Hd|]. intro Hss.
    rewrite run_app. cbn [run step].
    unfold loadSentencesFromDB, Iterate. rewrite Hd.
    assert (Hc : forall t, cout (run (map (OpAdd None) ss) t) = cout t).
    { clear. induction ss as [|s r IH]; intro t; [reflexivity|].
      cbn [map run]. rewrite IH. cbn [step]. now rewrite add_ok. }
    rewrite Hc. rewrite load_entries_ok by exact Hss. reflexivity.
  - intros Hlen Hb.
    destruct (nth_error ss 10) as [s10|] eqn:E10;
      [|apply nth_error_None in E10; lia].
    destruct (nth_error ss 2) as [s2|] eqn:E2;
      [|apply nth_error_None in E2; lia].
    destruct (run_adds ss empty_trainer 0 eq_refl Hb) as [_ [_ L]].
    pose proof (lookup_in _ _ _ (L 10%nat s10 E10)) as I10.
    pose proof (lookup_in _ _ _ (L 2%nat s2 E2)) as I2.
    assert (Hs : key_sorted (db_ (run (map (OpAdd None) ss) empty_trainer)))
      by (apply run_sorted; constructor).
    destruct (sorted_before _ _ _ _ _ Hs I10 I2 eq_refl) as [l1 [l2 [l3 Hd]]].
    exists l1, l2, l3, s10, s2. split; [reflexivity|]. split; [reflexivity|].
    exact Hd.
Qed.

Lemma scan_visits_key_order_witness :
  key_sorted (db_ (run [OpAdd None ("a", 1%Z); OpRemove None 0] empty_trainer))
  /\ fst (Iterate None (db_ (run (map (OpAdd None) [("a", 1%Z); ("b" ++ String NUL "", 2%Z)])
                              empty_trainer)))
     = entries 0 [("a", 1%Z); ("b" ++ String NUL "", 2%Z)]
  /\ cout (run (map (OpAdd None) [("a", 1%Z); ("b", 2%Z)] ++ [OpLoad None]) empty_trainer)
     = map print_line [("a", 1%Z); ("b", 2%Z)]
  /\ exists l1 l2 l3 s10 s2,
       nth_error eleven_sentences 10 = Some s10 /\ nth_error eleven_sentences 2 = Some s2
       /\ fst (Iterate None (db_ (run (map (OpAdd None) eleven_sentences) empty_trainer)))
          = (l1 ++ (to_string_size 10, encode s10) :: l2
                ++ (to_string_size 2, encode s2) :: l3)%list.
Proof.
  destruct (scan_visits_key_order [OpAdd None ("a", 1%Z); OpRemove None 0] empty_trainer
              [("a", 1%Z); ("b" ++ String NUL "", 2%Z)]) as [A [B _]].
  destruct (scan_visits_key_order [] empty_trainer [("a", 1%Z); ("b", 2%Z)]) as [_ [B' _]].
  destruct (scan_visits_key_order [] empty_trainer eleven_sentences) as [_ [_ C]].
  split; [apply A; constructor|].
  split; [apply B; cbn; lia|].
  split; [apply B'; [cbn; lia|]|].
  - apply Forall_forall. intros [x c] [E|[E|[]]]; injection E as <- <-;
      (split; [reflexivity | unfold in_int64; split; apply Z.leb_le; reflexivity]).
  - apply C; [cbn; lia|vm_compute; reflexivity].
Defined.

End StoreSpec.

(** ** [Sorted] against the generic ordering rule *)
Module SortedSpec.
Import SortedPairs.

Section Ordering.
Context {K V : Type}.
Variable key_lt : K -> K -> bool.
Variable value_gt : V -> V -> bool.
Variable value_eq : V -> V -> bool.

(** [<] on keys and [>] on values are strict total orders and [==] on
    values is equality. *)
Hypothesis value_eq_spec : forall a b, value_eq a b = true <-> a = b.
Hypothesis value_gt_irrefl : forall a, value_gt a a = false.
Hypothesis value_gt_trans :
  forall a b c, value_gt a b = true -> value_gt b c = true -> value_gt a c = true.
Hypothesis value_gt_total : forall a b, value_gt a b = true \/ a = b \/ value_gt b a = true.
Hypothesis key_lt_irrefl : forall a, key_lt a a = false.
Hypothesis key_lt_trans :
  forall a b c, key_lt a b = true -> key_lt b c = true -> key_lt a c = true.
Hypothesis key_lt_total : forall a b, key_lt a b = true \/ a = b \/ key_lt b a = true.

Let cmp := comp key_lt value_gt value_eq.

Lemma comp_irrefl (p : K * V) : cmp p p = false.
Proof.
  unfold cmp, comp. rewrite value_gt_irrefl, key_lt_irrefl.
  destruct (value_eq _ _); reflexivity.
Qed.

Lemma comp_true (p q : K * V) :
  cmp p q = true <->
  value_gt (snd p) (snd q) = true \/ (snd p = snd q /\ key_lt (fst p) (fst q) = true).
Proof.
  unfold cmp, comp. rewrite Bool.orb_true_iff, Bool.andb_true_iff, value_eq_spec.
  reflexivity.
Qed.

Lemma comp_trans (p q r : K * V) : cmp p q = true -> cmp q r = true -> cmp p r = true.
Proof.
  rewrite !comp_true.
  intros [H1|[E1 H1]] [H2|[E2 H2]]; rewrite ?E1, ?E2 in *.
  - left. eauto.
  - left. assumption.
  - left. assumption.
  - right. split; [first [reflexivity|congruence]|eauto].
Qed.

Lemma comp_total (p q : K * V) : cmp p q = true \/ p = q \/ cmp q p = true.
Proof.
  destruct p as [kp vp], q as [kq vq]. rewrite !comp_true; simpl.
  destruct (value_gt_total vp vq) as [H|[<-|H]]; [left; now left| |right; right; now left].
  destruct (key_lt_total kp kq) as [H|[<-|H]]; [left; now right| |right; right; now right].
  right; left; reflexivity.
Qed.

Lemma comp_asym (p q : K * V) : cmp p q = true -> cmp q p = false.
Proof.
  intro H. destruct (cmp q p) eqn:E; [|reflexivity].
  pose proof (comp_trans _ _ _ H E) as C. now rewrite comp_irrefl in C.
Qed.

(** [p] may stand before [q]. *)
Let R (p q : K * V) : Prop := cmp q p = false.

Lemma R_trans (p q r : K * V) : R p q -> R q r -> R p r.
Proof.
  unfold R. intros H1 H2. destruct (cmp r p) eqn:E; [|reflexivity].
  destruct (comp_total q r) as [C|[<-|C]].
  - rewrite (comp_trans _ _ _ C E) in H1. discriminate.
  - congruence.
  - congruence.
Qed.

Lemma insert_by_perm (x : K * V) (l : list (K * V)) :
  Permutation (x :: l) (insert_by key_lt value_gt value_eq x l).
Proof.
  induction l as [|y r IH]; simpl; [reflexivity|].
  destruct (comp key_lt value_gt value_eq y x); [|reflexivity].
  rewrite perm_swap. now constructor.
Qed.

Lemma sort_perm (l : list (K * V)) : Permutation l (sort key_lt value_gt value_eq l).
Proof.
  induction l as [|x r IH]; simpl; [reflexivity|].
  rewrite <- insert_by_perm. now constructor.
Qed.

Lemma insert_by_hd (y x : K * V) (l : list (K * V)) :
  R y x -> HdRel R y l -> HdRel R y (insert_by key_lt value_gt value_eq x l).
Proof.
  intros Hx Hl. destruct l as [|z r]; simpl; [now constructor|].
  destruct (comp key_lt value_gt value_eq z x); constructor; [|exact Hx].
  now inversion Hl.
Qed.

Lemma insert_by_sorted (x : K * V) (l : list (K * V)) :
  Sorted.Sorted R l -> Sorted.Sorted R (insert_by key_lt value_gt value_eq x l).
Proof.
  induction l as [|y r IH]; intro H; simpl; [now repeat constructor|].
  destruct (comp key_lt value_gt value_eq y x) eqn:E.
  - apply Sorted_inv in H as [Hr Hh]. constructor; [now apply IH|].
    apply insert_by_hd; [|exact Hh]. apply comp_asym. exact E.
  - constructor; [exact H|]. constructor. exact E.
Qed.

Lemma sort_sorted (l : list (K * V)) :
  StronglySorted R (sort key_lt value_gt value_eq l).
Proof.
  apply Sorted_StronglySorted; [exact R_trans|].
  induction l as [|x r IH]; simpl; [constructor|]. now apply insert_by_sorted.
Qed.

Lemma strongly_sorted_nth (l : list (K * V)) (i j : nat) (p q : K * V) :
  StronglySorted R l -> (i < j)%nat ->
  nth_error l i = Some p -> nth_error l j = Some q -> R p q.
Proof.
  revert i j; induction l as [|x r IH]; intros i j H Hij Hi Hj;
    [destruct i; discriminate|].
  apply StronglySorted_inv in H as [Hr Hf].
  destruct i as [|i], j as [|j]; simpl in Hi, Hj; try lia.
  - injection Hi as <-. rewrite Forall_forall in Hf. apply Hf.
    eapply nth_error_In. exact Hj.
  - apply (IH i j); [exact Hr|lia|exact Hi|exact Hj].
Qed.

(** C2: [Sorted] returns a permutation of its input, non-increasing in the
    value, and of two pairs with equal values the one with the smaller key
    comes first. *)
Theorem Sorted_ordering (m : list (K * V)) :
  Permutation m (Sorted key_lt value_gt value_eq m)
  /\ (forall i j p q, (i < j)%nat ->
        nth_error (Sorted key_lt value_gt value_eq m) i = Some p ->
        nth_error (Sorted key_lt value_gt value_eq m) j = Some q ->
        value_gt (snd q) (snd p) = false)
  /\ (forall i j p q,
        nth_error (Sorted key_lt value_gt value_eq m) i = Some p ->
        nth_error (Sorted key_lt value_gt value_eq m) j = Some q ->
        snd p = snd q -> key_lt (fst p) (fst q) = true -> (i < j)%nat).
Proof.
  unfold Sorted. cbv zeta. pose proof (sort_sorted m) as S.
  split; [apply sort_perm|]. split.
  - intros i j p q Hij Hi Hj.
    pose proof (strongly_sorted_nth _ _ _ _ _ S Hij Hi Hj) as C.
    unfold R in C. destruct (value_gt (snd q) (snd p)) eqn:E; [|reflexivity].
    assert (cmp q p = true) by (apply comp_true; now left). congruence.
  - intros i j p q Hi Hj Ev Hk.
    destruct (Nat.lt_trichotomy i j) as [Hij|[<-|Hji]]; [exact Hij| |].
    + rewrite Hi in Hj. injection Hj as <-. now rewrite key_lt_irrefl in Hk.
    + pose proof (strongly_sorted_nth _ _ _ _ _ S Hji Hj Hi) as C.
      unfold R in C. assert (cmp p q = true) by (apply comp_true; now right). congruence.
Qed.

End Ordering.

(** [Sorted] on pairs of numbers: values 5, 7 and 5 with keys 2, 3 and 1. *)
Lemma Sorted_ordering_witness :
  Permutation [(2, 5); (1, 5); (3, 7)] (Sorted Nat.ltb (fun a b => Nat.ltb b a) Nat.eqb
                                            [(2, 5); (1, 5); (3, 7)])
  /\ Sorted Nat.ltb (fun a b => Nat.ltb b a) Nat.eqb [(2, 5); (1, 5); (3, 7)]
     = [(3, 7); (1, 5); (2, 5)].
Proof.
  split; [|reflexivity].
  apply (Sorted_ordering (K:=nat) (V:=nat) Nat.ltb (fun a b => Nat.ltb b a) Nat.eqb);
    try exact Nat.eqb_eq;
    intros; cbv beta in *; rewrite ?Nat.ltb_lt, ?Nat.ltb_ge in *; lia.
Defined.

End SortedSpec.

(** ** Sizes, removal and scans *)
Module SizeFacts.
Import LevelDB Trainer Ops EncodingFacts StoreFacts.

Lemma lookup_none_of_lt (k : string) (d : store) :
  Forall (fun x => String.compare k (fst x) = Lt) d -> lookup k d = None.
Proof.
  induction d as [|[k' v'] r IH]; intro H; simpl; [reflexivity|].
  apply Forall_cons_iff in H as [H1 H2]. simpl in H1. rewrite H1. now apply IH.
Qed.

Lemma lookup_none_of_neq (k : string) (d : store) :
  (forall x, In x d -> fst x = k -> False) -> lookup k d = None.
Proof.
  induction d as [|[k' v'] r IH]; intro H; simpl; [reflexivity|].
  destruct (String.compare k k') eqn:E.
  - apply string_compare_eq in E. exfalso. apply (H (k', v')); [now left|simpl; auto].
  - apply IH. intros x Hx. apply H. now right.
  - apply IH. intros x Hx. apply H. now right.
Qed.

Lemma sorted_tail_lt (k k' v' : string) (r : store) :
  key_sorted ((k', v') :: r) -> String.compare k k' <> Gt ->
  Forall (fun x => String.compare k (fst x) = Lt) r.
Proof.
  intros H Hk. apply StronglySorted_inv in H as [_ Hf].
  eapply Forall_impl; [|exact Hf]. intros x Hx. simpl in Hx.
  destruct (String.compare k k') eqn:E; [|eapply string_compare_lt_trans; eauto|congruence].
  apply string_compare_eq in E. now subst.
Qed.

Lemma lookup_remove_same (k : string) (d : store) :
  key_sorted d -> lookup k (remove k d) = None.
Proof.
  induction d as [|[k' v'] r IH]; intro H; simpl; [reflexivity|].
  destruct (String.compare k k') eqn:E.
  - apply lookup_none_of_lt. eapply sorted_tail_lt; [exact H|congruence].
  - simpl. rewrite E. apply lookup_remove_none, lookup_none_of_lt.
    eapply sorted_tail_lt; [exact H|congruence].
  - simpl. rewrite E. apply IH. now apply StronglySorted_inv in H as [H _].
Qed.

Lemma length_insert_absent (k v : string) (d : store) :
  lookup k d = None -> length (insert k v d) = S (length d).
Proof.
  induction d as [|[k' v'] r IH]; simpl; intro H; [reflexivity|].
  destruct (String.compare k k'); [discriminate|reflexivity|simpl; now rewrite IH].
Qed.

Lemma length_insert_present (k v w : string) (d : store) :
  key_sorted d -> lookup k d = Some w -> length (insert k v d) = length d.
Proof.
  induction d as [|[k' v'] r IH]; simpl; intros Hs H; [discriminate|].
  destruct (String.compare k k') eqn:E; [reflexivity| |].
  - rewrite lookup_none_of_lt in H; [discriminate|].
    eapply sorted_tail_lt; [exact Hs|congruence].
  - simpl. rewrite IH; [reflexivity| |exact H]. now apply StronglySorted_inv in Hs as [Hs _].
Qed.

Lemma remove_absent (k : string) (d : store) : lookup k d = None -> remove k d = d.
Proof.
  induction d as [|[k' v'] r IH]; simpl; intro H; [reflexivity|].
  destruct (String.compare k k'); [discriminate|now rewrite IH|now rewrite IH].
Qed.

Lemma length_remove_present (k w : string) (d : store) :
  key_sorted d -> lookup k d = Some w -> S (length (remove k d)) = length d.
Proof.
  induction d as [|[k' v'] r IH]; simpl; intros Hs H; [discriminate|].
  destruct (String.compare k k') eqn:E; [reflexivity| |].
  - rewrite lookup_none_of_lt in H; [discriminate|].
    eapply sorted_tail_lt; [exact Hs|congruence].
  - simpl. rewrite IH; [reflexivity| |exact H]. now apply StronglySorted_inv in Hs as [Hs _].
Qed.

Lemma count_loop (es : list (string * string)) (c : N) :
  (c < SIZE_MAX_PLUS_1)%N ->
  fold_left (fun c _ => size_t_incr c) es c
  = ((c + N.of_nat (length es)) mod SIZE_MAX_PLUS_1)%N.
Proof.
  unfold size_t_incr. revert c; induction es as [|e r IH]; intros c Hc; simpl.
  - rewrite N.add_0_r. symmetry. now apply N.mod_small.
  - rewrite IH by (apply N.mod_lt; unfold SIZE_MAX_PLUS_1; lia).
    rewrite N.Div0.add_mod_idemp_l. f_equal. lia.
Qed.

Lemma getDBSize_ok (t : state) :
  getDBSize None t
  = (Normal (N.of_nat (length (db_ t)) mod SIZE_MAX_PLUS_1)%N, t).
Proof.
  unfold getDBSize, Iterate. cbn [ok]. rewrite count_loop by reflexivity. reflexivity.
Qed.

Lemma remove_ok (i : N) (t : state) :
  removeSentenceFromDB None i t
  = (Normal tt, set_db t (remove (to_string_size i) (db_ t))).
Proof. reflexivity. Qed.

Lemma load_entries_encoded (es : list (string * string)) (ss : list Sentence)
    (out : list string) :
  map snd es = map encode ss ->
  Forall (fun s => no_nul (fst s) /\ in_int64 (snd s)) ss ->
  load_entries es out = (Normal tt, (out ++ map print_line ss)%list).
Proof.
  revert ss out; induction es as [|[k v] r IH]; intros [|s ss] out Hm Hf;
    try discriminate; simpl.
  - now rewrite app_nil_r.
  - injection Hm as -> Hm. apply Forall_cons_iff in Hf as [[Hn Hc] Hf].
    destruct s as [text c]. rewrite decode_encode by assumption.
    rewrite (IH ss) by assumption. now rewrite <- app_assoc.
Qed.

Lemma load_entries_length (es : list (string * string)) (out out' : list string) :
  load_entries es out = (Normal tt, out') -> length out' = (length out + length es)%nat.
Proof.
  revert out; induction es as [|[k v] r IH]; intros out H; simpl in H.
  - injection H as <-. simpl. lia.
  - destruct (decode v) as [s|e]; [|discriminate].
    apply IH in H. rewrite H, length_app. simpl. lia.
Qed.

Lemma adds_from_empty_length (ss : list Sentence) (c : list string) :
  (N.of_nat (length ss) < SIZE_MAX_PLUS_1)%N ->
  length (db_ (run (map (OpAdd None) ss) (mk_state [] 0%N c))) = length ss.
Proof.
  intro Hb.
  assert (G : forall t k, current_index_ t = N.of_nat k ->
            (N.of_nat (k + length ss) < SIZE_MAX_PLUS_1)%N ->
            (forall x, In x (db_ t) -> exists i, (i < k)%nat /\ fst x = to_string_size (N.of_nat i)) ->
            length (db_ (run (map (OpAdd None) ss) t)) = (length (db_ t) + length ss)%nat).
  { clear Hb. induction ss as [|s r IH]; intros t k Hk Hlen Hd; cbn [map run].
    - simpl. lia.
    - cbn [step]. rewrite add_ok. cbn [snd]. simpl length in Hlen.
      rewrite IH with (k := S k).
      + cbn [db_]. rewrite length_insert_absent; [simpl; lia|].
        rewrite Hk. apply lookup_none_of_neq. intros x Hx E.
        destruct (Hd x Hx) as [i [Hi Ex]]. rewrite E in Ex.
        apply to_string_size_inj, Nat2N.inj in Ex. lia.
      + cbn [current_index_]. rewrite Hk. apply size_t_incr_small. lia.
      + lia.
      + cbn [db_]. intros [xk xv] Hx. apply in_insert in Hx as [Ex|Hx].
        * exists k. split; [lia|]. injection Ex as -> ->. now rewrite Hk.
        * destruct (Hd (xk, xv) Hx) as [i [Hi E]]. exists i. split; [lia|exact E]. }
  rewrite (G (mk_state [] 0%N c) 0); [reflexivity|reflexivity|exact Hb|intros x []].
Qed.

End SizeFacts.

(** ** Further properties of the store methods *)
Module StoreExtra.
Import LevelDB Trainer Ops EncodingFacts StoreFacts SizeFacts StoreSpec.

(** [removeSentenceFromDB i] succeeds whether or not [i] holds a record;
    afterwards [getSentenceFromDB i] raises the not-found error, every other
    id keeps its value and [current_index_] is unchanged. *)
Theorem remove_then_get (t : state) (i : N) :
  key_sorted (db_ t) ->
  let '(r, t') := removeSentenceFromDB None i t in
  r = Normal tt
  /\ getSentenceFromDB None i t' = (Raised not_found_error, t')
  /\ (forall j, j <> i ->
        lookup (to_string_size j) (db_ t') = lookup (to_string_size j) (db_ t))
  /\ current_index_ t' = current_index_ t.
Proof.
  intro Hs. rewrite remove_ok. split; [reflexivity|]. split.
  - apply get_absent. cbn [db_ set_db]. now apply lookup_remove_same.
  - split; [|reflexivity]. intros j Hj. cbn [db_ set_db].
    apply lookup_remove_other. intro E. apply to_string_size_inj in E. auto.
Qed.

Lemma remove_then_get_witness :
  key_sorted (db_ (snd (addSentenceToDB None ("a", 1%Z) empty_trainer)))
  /\ (let '(r, t') := removeSentenceFromDB None 0
                        (snd (addSentenceToDB None ("a", 1%Z) empty_trainer)) in
      r = Normal tt
      /\ getSentenceFromDB None 0 t' = (Raised not_found_error, t')
      /\ (forall j, j <> 0%N ->
            lookup (to_string_size j) (db_ t')
            = lookup (to_string_size j) (db_ (snd (addSentenceToDB None ("a", 1%Z) empty_trainer))))
      /\ current_index_ t' = current_index_ (snd (addSentenceToDB None ("a", 1%Z) empty_trainer))).
Proof.
  assert (H : key_sorted (db_ (snd (addSentenceToDB None ("a", 1%Z) empty_trainer))))
    by (repeat constructor).
  split; [exact H|]. exact (remove_then_get _ 0 H).
Defined.

(** [getDBSize] after [removeSentenceFromDB i]: one less when [i] held a
    record, the same otherwise. *)
Theorem remove_size (t : state) (i : N) (n : N) :
  key_sorted (db_ t) ->
  (N.of_nat (length (db_ t)) < SIZE_MAX_PLUS_1)%N ->
  getDBSize None t = (Normal n, t) ->
  fst (getDBSize None (snd (removeSentenceFromDB None i t)))
  = Normal (match lookup (to_string_size i) (db_ t) with
            | Some _ => (n - 1)%N
            | None => n
            end).
Proof.
  intros Hs Hb Hn. rewrite getDBSize_ok in Hn. injection Hn as <-.
  rewrite remove_ok. cbn [snd]. rewrite getDBSize_ok. cbn [fst db_ set_db].
  rewrite (N.mod_small (N.of_nat (length (db_ t)))) by exact Hb.
  destruct (lookup (to_string_size i) (db_ t)) as [w|] eqn:E.
  - pose proof (length_remove_present _ _ _ Hs E) as L.
    rewrite N.mod_small by lia. f_equal. lia.
  - rewrite remove_absent by exact E. now rewrite N.mod_small by exact Hb.
Qed.

Lemma remove_size_witness :
  fst (getDBSize None (snd (removeSentenceFromDB None 0
         (snd (addSentenceToDB None ("a", 1%Z) empty_trainer))))) = Normal 0%N.
Proof.
  exact (remove_size (snd (addSentenceToDB None ("a", 1%Z) empty_trainer)) 0 1
           ltac:(repeat constructor) ltac:(vm_compute; reflexivity)
           ltac:(vm_compute; reflexivity)).
Defined.

(** [getDBSize] after [updateSentenceInDB i]: unchanged when [i] held a
    record, one more (with [size_t] wrap-around) otherwise. *)
Theorem update_size (t : state) (i : N) (s : Sentence) (n : N) :
  key_sorted (db_ t) ->
  getDBSize None t = (Normal n, t) ->
  fst (getDBSize None (snd (updateSentenceInDB None i s t)))
  = Normal (match lookup (to_string_size i) (db_ t) with
            | Some _ => n
            | None => size_t_incr n
            end).
Proof.
  intros Hs Hn. rewrite getDBSize_ok in Hn. injection Hn as <-.
  rewrite update_ok. cbn [snd]. rewrite getDBSize_ok. cbn [fst db_ set_db].
  destruct (lookup (to_string_size i) (db_ t)) as [w|] eqn:E.
  - now rewrite (length_insert_present _ _ w).
  - rewrite length_insert_absent by exact E. unfold size_t_incr. f_equal.
    rewrite N.Div0.add_mod_idemp_l. f_equal. lia.
Qed.

Lemma update_size_witness :
  fst (getDBSize None (snd (updateSentenceInDB None 5 ("b", 2%Z)
         (snd (addSentenceToDB None ("a", 1%Z) empty_trainer))))) = Normal 2%N.
Proof.
  exact (update_size (snd (addSentenceToDB None ("a", 1%Z) empty_trainer)) 5 ("b", 2%Z) 1
           ltac:(repeat constructor) ltac:(vm_compute; reflexivity)).
Defined.

(** From a store opened empty, [getDBSize] after [n] accepted inserts is
    [n], whatever the texts, also when texts repeat. *)
Theorem adds_size (ss : list Sentence) (c : list string) :
  (N.of_nat (length ss) < SIZE_MAX_PLUS_1)%N ->
  fst (getDBSize None (run (map (OpAdd None) ss) (mk_state [] 0%N c)))
  = Normal (N.of_nat (length ss)).
Proof.
  intro Hb. rewrite getDBSize_ok. cbn [fst].
  rewrite adds_from_empty_length by exact Hb. now rewrite N.mod_small.
Qed.

Lemma adds_size_witness :
  fst (getDBSize None (run (map (OpAdd None) [("a", 1%Z); ("a", 1%Z); ("b", 1%Z)])
                        (mk_state [] 0%N []))) = Normal 3%N.
Proof. exact (adds_size [("a", 1%Z); ("a", 1%Z); ("b", 1%Z)] [] ltac:(vm_compute; reflexivity)). Defined.

(** When every stored value encodes a sentence with a NUL-free text,
    [loadSentencesFromDB] returns normally after printing one line per
    record, in the order of the store, and changes nothing else. *)
Theorem load_prints_records (t : state) (ss : list Sentence) :
  map snd (db_ t) = map encode ss ->
  Forall (fun s => no_nul (fst s) /\ in_int64 (snd s)) ss ->
  loadSentencesFromDB None t
  = (Normal tt, mk_state (db_ t) (current_index_ t) (cout t ++ map print_line ss)%list).
Proof.
  intros Hm Hf. unfold loadSentencesFromDB, Iterate.
  rewrite (load_entries_encoded _ ss) by assumption. reflexivity.
Qed.

Lemma load_prints_records_witness :
  loadSentencesFromDB None (mk_state [("0", encode ("a", 1%Z)); ("3", encode ("b", 2%Z))] 1%N [])
  = (Normal tt, mk_state [("0", encode ("a", 1%Z)); ("3", encode ("b", 2%Z))] 1%N
                  ([] ++ map print_line [("a", 1%Z); ("b", 2%Z)])%list).
Proof.
  apply (load_prints_records
    (mk_state [("0", encode ("a", 1%Z)); ("3", encode ("b", 2%Z))] 1%N [])
    [("a", 1%Z); ("b", 2%Z)] eq_refl).
  apply Forall_forall. intros [x c] [E|[E|[]]]; injection E as <- <-;
    (split; [reflexivity | unfold in_int64; split; apply Z.leb_le; reflexivity]).
Defined.

(** A stored value without a NUL byte stops [loadSentencesFromDB] with
    [std::runtime_error("Corrupted value in LevelDB")], after the lines of
    the records before it have been printed; store and index are kept. *)
Theorem load_stops_at_corrupt (t : state) (d1 d2 : store) (k v : string)
    (ss : list Sentence) :
  db_ t = (d1 ++ (k, v) :: d2)%list ->
  map snd d1 = map encode ss ->
  Forall (fun s => no_nul (fst s) /\ in_int64 (snd s)) ss ->
  find NUL v = None ->
  loadSentencesFromDB None t
  = (Raised (runtime_error "Corrupted value in LevelDB"),
     mk_state (db_ t) (current_index_ t) (cout t ++ map print_line ss)%list).
Proof.
  intros Hd Hm Hf Hv. unfold loadSentencesFromDB, Iterate. rewrite Hd at 1.
  assert (G : forall out, load_entries (d1 ++ (k, v) :: d2)%list out
              = (Raised (runtime_error "Corrupted value in LevelDB"),
                 (out ++ map print_line ss)%list)).
  { clear Hd. revert ss Hm Hf. induction d1 as [|[k1 v1] r IH]; intros [|s ss] Hm Hf out;
      try discriminate; simpl.
    - unfold decode. rewrite Hv. now rewrite app_nil_r.
    - injection Hm as -> Hm. apply Forall_cons_iff in Hf as [[Hn Hc] Hf].
      destruct s as [text c]. rewrite decode_encode by assumption.
      rewrite (IH ss Hm Hf). now rewrite <- app_assoc. }
  rewrite G. reflexivity.
Qed.

Lemma load_stops_at_corrupt_witness :
  loadSentencesFromDB None (mk_state [("0", encode ("a", 1%Z)); ("1", "broken"); ("2", encode ("c", 1%Z))] 3%N [])
  = (Raised (runtime_error "Corrupted value in LevelDB"),
     mk_state [("0", encode ("a", 1%Z)); ("1", "broken"); ("2", encode ("c", 1%Z))] 3%N
              (map print_line [("a", 1%Z)])).
Proof.
  exact (load_stops_at_corrupt
           (mk_state [("0", encode ("a", 1%Z)); ("1", "broken"); ("2", encode ("c", 1%Z))] 3%N [])
           [("0", encode ("a", 1%Z))] [("2", encode ("c", 1%Z))] "1" "broken" [("a", 1%Z)]
           eq_refl eq_refl
           ltac:(apply Forall_forall; intros [x c] [E|[]]; injection E as <- <-;
                 split; [reflexivity | unfold in_int64; split; apply Z.leb_le; reflexivity])
           eq_refl).
Defined.

(** When [loadSentencesFromDB] returns normally it has printed exactly as
    many lines as [getDBSize] counts. *)
Theorem load_lines_match_size (t t' : state) :
  loadSentencesFromDB None t = (Normal tt, t') ->
  (N.of_nat (length (db_ t)) < SIZE_MAX_PLUS_1)%N ->
  getDBSize None t = (Normal (N.of_nat (length (cout t') - length (cout t))), t).
Proof.
  intros Hl Hb. unfold loadSentencesFromDB, Iterate in Hl.
  destruct (load_entries (db_ t) (cout t)) as [[u|e] out] eqn:E; [|discriminate].
  destruct u. cbn [ok] in Hl. injection Hl as <-. cbn [cout].
  apply load_entries_length in E.
  rewrite getDBSize_ok, N.mod_small by exact Hb. do 3 f_equal. lia.
Qed.

Lemma load_lines_match_size_witness :
  getDBSize None (mk_state [("0", encode ("a", 1%Z)); ("1", encode ("b", 4%Z))] 2%N [])
  = (Normal (N.of_nat
       (length (cout (mk_state [("0", encode ("a", 1%Z)); ("1", encode ("b", 4%Z))] 2%N
                        [print_line ("a", 1%Z); print_line ("b", 4%Z)]))
        - length (cout (mk_state [("0", encode ("a", 1%Z)); ("1", encode ("b", 4%Z))] 2%N [])))),
     mk_state [("0", encode ("a", 1%Z)); ("1", encode ("b", 4%Z))] 2%N []).
Proof.
  apply (load_lines_match_size
           (mk_state [("0", encode ("a", 1%Z)); ("1", encode ("b", 4%Z))] 2%N [])
           (mk_state [("0", encode ("a", 1%Z)); ("1", encode ("b", 4%Z))] 2%N
              [print_line ("a", 1%Z); print_line ("b", 4%Z)]));
    vm_compute; reflexivity.
Defined.

(** Reopening a database that already holds records: [current_index_]
    restarts at 0, so the first insert overwrites id 0 and every other id
    keeps the record of the earlier run. *)
Theorem reopen_overwrites_id0 (d0 : store) (s : Sentence) :
  match TrainerInterface OK d0 with
  | Normal t =>
      lookup (to_string_size 0) (db_ (snd (addSentenceToDB None s t))) = Some (encode s)
      /\ forall j, j <> 0%N ->
         lookup (to_string_size j) (db_ (snd (addSentenceToDB None s t)))
         = lookup (to_string_size j) d0
  | Raised _ => False
  end.
Proof.
  cbn [TrainerInterface ok]. rewrite add_ok. cbn [snd db_ current_index_].
  split; [apply lookup_insert_same|].
  intros j Hj. apply lookup_insert_other. intro E. apply to_string_size_inj in E. auto.
Qed.

(** An iteration error after the first [n] records, all well formed: the
    lines of those records are printed, then [loadSentencesFromDB] throws
    [std::runtime_error("Failed to iterate LevelDB: ...")]. *)
Theorem load_iteration_failure (t : state) (n : nat) (m : string) (ss : list Sentence) :
  map snd (firstn n (db_ t)) = map encode ss ->
  Forall (fun s => no_nul (fst s) /\ in_int64 (snd s)) ss ->
  loadSentencesFromDB (Some (n, m)) t
  = (Raised (runtime_error ("Failed to iterate LevelDB: " ++ ToString (IOError m))),
     mk_state (db_ t) (current_index_ t) (cout t ++ map print_line ss)%list).
Proof.
  intros Hm Hf. unfold loadSentencesFromDB, Iterate.
  rewrite (load_entries_encoded _ ss) by assumption. reflexivity.
Qed.

Lemma load_iteration_failure_witness :
  loadSentencesFromDB (Some (1, "disk"))
    (mk_state [("0", encode ("a", 1%Z)); ("1", "broken")] 2%N [])
  = (Raised (runtime_error ("Failed to iterate LevelDB: " ++ ToString (IOError "disk"))),
     mk_state [("0", encode ("a", 1%Z)); ("1", "broken")] 2%N
              ([] ++ map print_line [("a", 1%Z)])%list).
Proof.
  apply (load_iteration_failure
           (mk_state [("0", encode ("a", 1%Z)); ("1", "broken")] 2%N []) 1 "disk"
           [("a", 1%Z)] eq_refl).
  apply Forall_forall. intros [x c] [E|[]]; injection E as <- <-;
    (split; [reflexivity | unfold in_int64; split; apply Z.leb_le; reflexivity]).
Defined.

Lemma c_str_app_nul (a r : string) :
  no_nul a -> c_str (a ++ String NUL r) = c_str a.
Proof.
  unfold no_nul. induction a as [|x a IH]; simpl; intro H; [reflexivity|].
  destruct (Ascii.eqb x NUL); [discriminate|].
  destruct (find NUL a); [discriminate|]. f_equal. now apply IH.
Qed.

Lemma stoll_app_nul (a r : string) :
  no_nul a -> stoll (a ++ String NUL r) = stoll a.
Proof. intro H. unfold stoll. now rewrite c_str_app_nul. Qed.

Lemma no_nul_uint (d : Decimal.uint) : no_nul (uint_to_string d).
Proof. unfold no_nul. induction d; simpl; rewrite ?IHd; reflexivity. Qed.

Lemma no_nul_to_string_int64 (c : Z) : no_nul (to_string_int64 c).
Proof.
  unfold to_string_int64, to_string_nat, no_nul.
  destruct (c <? 0)%Z; simpl; [rewrite (no_nul_uint _)|apply no_nul_uint]; reflexivity.
Qed.

Lemma append_assoc (a b c : string) : ((a ++ b) ++ c) = (a ++ (b ++ c)).
Proof. induction a; simpl; congruence. Qed.

(** [std::stoll] reads up to the first NUL of its argument, so a stored
    value that carries further NUL-separated fields after the count still
    reads back as the sentence that was written. *)
Theorem get_ignores_trailing_fields (t : state) (i : N) (text : string) (c : Z)
    (rest : string) :
  no_nul text -> in_int64 c ->
  lookup (to_string_size i) (db_ t) = Some (encode (text, c) ++ String NUL rest) ->
  getSentenceFromDB None i t = (Normal (text, c), t).
Proof.
  intros Hn Hc Hl. rewrite (get_found _ _ _ Hl). f_equal.
  unfold decode, encode. cbn [fst snd]. rewrite append_assoc. cbn [append].
  rewrite find_app_no_nul by exact Hn. rewrite substr_from_app.
  assert (S : stoll (to_string_int64 c ++ String NUL rest) = Normal c).
  { rewrite stoll_app_nul by apply no_nul_to_string_int64.
    now apply stoll_to_string_int64. }
  rewrite S, substr_prefix_app by lia. now rewrite substr_prefix_length.
Qed.

Lemma get_ignores_trailing_fields_witness :
  getSentenceFromDB None 0 (mk_state [("0", encode ("a", 3%Z) ++ String NUL "x")] 1%N [])
  = (Normal ("a", 3%Z), mk_state [("0", encode ("a", 3%Z) ++ String NUL "x")] 1%N []).
Proof.
  apply (get_ignores_trailing_fields
           (mk_state [("0", encode ("a", 3%Z) ++ String NUL "x")] 1%N []) 0 "a" 3 "x");
    [reflexivity | unfold in_int64; split; apply Z.leb_le; reflexivity | reflexivity].
Defined.

End StoreExtra.

(** ** Further properties of [Sorted] *)
Module SortedExtra.
Import SortedPairs.

Section Ordering.
Context {K V : Type}.
Variable key_lt : K -> K -> bool.
Variable value_gt : V -> V -> bool.
Variable value_eq : V -> V -> bool.
Hypothesis value_eq_spec : forall a b, value_eq a b = true <-> a = b.
Hypothesis value_gt_irrefl : forall a, value_gt a a = false.
Hypothesis value_gt_trans :
  forall a b c, value_gt a b = true -> value_gt b c = true -> value_gt a c = true.
Hypothesis value_gt_total : forall a b, value_gt a b = true \/ a = b \/ value_gt b a = true.
Hypothesis key_lt_irrefl : forall a, key_lt a a = false.
Hypothesis key_lt_trans :
  forall a b c, key_lt a b = true -> key_lt b c = true -> key_lt a c = true.
Hypothesis key_lt_total : forall a b, key_lt a b = true \/ a = b \/ key_lt b a = true.

Let cmp := comp key_lt value_gt value_eq.
Let R (p q : K * V) : Prop := cmp q p = false.

Lemma sorted_unique (l1 l2 : list (K * V)) :
  StronglySorted R l1 -> StronglySorted R l2 -> Permutation l1 l2 -> l1 = l2.
Proof.
  revert l2; induction l1 as [|x r1 IH]; intros l2 H1 H2 P.
  - symmetry. now apply Permutation_nil.
  - destruct l2 as [|y r2]; [apply Permutation_sym, Permutation_nil in P; discriminate|].
    apply StronglySorted_inv in H1 as [S1 F1]. apply StronglySorted_inv in H2 as [S2 F2].
    assert (x = y) as <-.
    { destruct (SortedSpec.comp_total key_lt value_gt value_eq value_eq_spec
                  value_gt_total key_lt_total x y) as [C|[E|C]]; [|exact E|].
      - assert (Hx : In x (y :: r2)) by (apply (Permutation_in _ P); now left).
        destruct Hx as [->|Hx]; [reflexivity|].
        rewrite Forall_forall in F2. specialize (F2 _ Hx). unfold R, cmp in F2, C. congruence.
      - assert (Hy : In y (x :: r1)) by (apply (Permutation_in _ (Permutation_sym P)); now left).
        destruct Hy as [<-|Hy]; [reflexivity|].
        rewrite Forall_forall in F1. specialize (F1 _ Hy). unfold R, cmp in F1, C. congruence. }
    f_equal. apply IH; auto. eapply Permutation_cons_inv. exact P.
Qed.

(** [Sorted] of a [flat_hash_map] does not depend on the map's iteration
    order: two iteration orders of the same entries give the same list. *)
Theorem Sorted_map_order_independent (m1 m2 : list (K * V)) :
  Permutation m1 m2 -> Sorted_map key_lt value_gt value_eq m1 = Sorted_map key_lt value_gt value_eq m2.
Proof.
  intro P. unfold Sorted_map, Sorted. cbv zeta.
  apply sorted_unique.
  - apply SortedSpec.sort_sorted; auto.
  - apply SortedSpec.sort_sorted; auto.
  - rewrite <- !SortedSpec.sort_perm. exact P.
Qed.

End Ordering.

Lemma Sorted_map_order_independent_witness :
  Sorted_map Nat.ltb (fun a b => Nat.ltb b a) Nat.eqb [(2, 5); (1, 5); (3, 7)]
  = Sorted_map Nat.ltb (fun a b => Nat.ltb b a) Nat.eqb [(3, 7); (2, 5); (1, 5)].
Proof.
  apply (Sorted_map_order_independent (K:=nat) (V:=nat) Nat.ltb (fun a b => Nat.ltb b a) Nat.eqb);
    try exact Nat.eqb_eq;
    try (intros; cbv beta in *; rewrite ?Nat.ltb_lt, ?Nat.ltb_ge in *; lia).
  apply Permutation_sym, (Permutation_cons_append [(2, 5); (1, 5)] (3, 7)).
Defined.

End SortedExtra.
